(** * Sensor-Fusion: the IMU / lidar / GNSS filtering flow

    A shallow embedding of [FilteringFlow]
    (assignments/04-imu-lidar-gnss-fusion, lidar_localization,
    src/filtering/filtering_flow.cpp) and of what the flow sees of the
    filter behind [filtering_ptr_].

    - Timestamps are C++ [double]s: they are binary64 floats here, compared
      and subtracted with the IEEE operations the compiled code uses.
    - A [std::deque] is a list: [front] is the head, [pop_front] drops it,
      [push_back] appends at the end.  [front] and [pop_front] on an empty
      deque are undefined behaviour: the model has no result there.
    - The member functions run in a state-and-failure monad over the
      object's fields.
    - Everything the flow sends to a publisher, a log or the filter is
      appended to the field [emitted], in program order. *)

From Stdlib Require Import List Bool Arith ZArith Lia Floats Permutation.
Import ListNotations.

Set Implicit Arguments.
Set Warnings "-inexact-float".

(** C++ [x > y] and [x >= y] on doubles: both are false when an operand is
    not a number. *)
Notation "x >? y" := (PrimFloat.ltb y x)
  (at level 70, no associativity, only parsing) : float_scope.
Notation "x >=? y" := (PrimFloat.leb y x)
  (at level 70, no associativity, only parsing) : float_scope.

(** ** Payloads

    The flow never looks inside a point cloud, a pose matrix or a velocity
    vector: it copies them between messages, the filter and the publishers.
    The only computation is the distance between two translation blocks,
    [(a.block<3,1>(0,3) - b.block<3,1>(0,3)).norm()], of InitLocalization. *)
Class Payload : Type := {
  CLOUD_PTR : Type;   (* CloudData::CLOUD_PTR *)
  Matrix4f : Type;    (* Eigen::Matrix4f *)
  Vector3f : Type;    (* Eigen::Vector3f and the 3-vectors of an IMU sample *)
  Scalar : Type;      (* float *)
  translation_distance : Matrix4f -> Matrix4f -> Scalar
}.

Module IMUData.
Record t `{Payload} : Type := Build {
  time : float;
  linear_acceleration : Vector3f;
  angular_velocity : Vector3f
}.
End IMUData.

Module CloudData.
Record t `{Payload} : Type := Build {
  time : float;
  cloud_ptr : CLOUD_PTR
}.
End CloudData.

Module PoseData.
Record t `{Payload} : Type := Build {
  time : float;
  pose : Matrix4f;
  vel : Vector3f
}.
End PoseData.

(** ** The filter behind [filtering_ptr_]

    Its implementation is not part of the flow: the flow is modelled over
    any filter with the member functions the flow calls.  A member function
    that may change the filter returns the new filter with its result;
    [Correct] also receives and returns [laser_pose_], which it takes by
    reference. *)
Module Filtering.
Class ops `{Payload} : Type := {
  t : Type;
  (* the constructor, as in std::make_shared<Filtering>() *)
  create : t;
  HasInited : t -> bool;
  GetTime : t -> float;
  GetPose : t -> Matrix4f;
  (* Init(const CloudData&, const Vector3f&, const IMUData&): scan context *)
  Init_scan : CloudData.t -> Vector3f -> IMUData.t -> t -> bool * t;
  (* Init(const Matrix4f&, const Vector3f&, const IMUData&): given pose *)
  Init_pose : Matrix4f -> Vector3f -> IMUData.t -> t -> bool * t;
  Update : IMUData.t -> t -> bool * t;
  Correct : IMUData.t -> CloudData.t -> Matrix4f -> t -> bool * Matrix4f * t;
  GetOdometry : t -> Matrix4f * Vector3f;
  HasNewGlobalMap : t -> bool;
  HasNewLocalMap : t -> bool;
  GetGlobalMap : t -> CLOUD_PTR * t;
  GetLocalMap : t -> CLOUD_PTR;
  GetCurrentScan : t -> CLOUD_PTR
}.

(** Modelled from the spec: the filter's initialization flag, whose code
    (the filter's [Init], [Update] and [Correct]) is not among the sources.
    Section 4.2: "after this step, the filter has a valid nominal state and
    a starting covariance; HasInited() becomes true for all subsequent
    cycles"; section 3: the filter state "is created uninitialized,
    transitions to initialized exactly once via the Initialization Manager
    ... it is never reset mid-run".  The flag's initial value is also that of
    the member [has_inited_] in imu_gnss_odo_filtering.hpp. *)
Class laws `{ops} : Prop := {
  (* bool has_inited_ = false; in the class declaration *)
  create_uninitialized : HasInited create = false;
  Init_scan_inited : forall c v i f,
    fst (Init_scan c v i f) = true -> HasInited (snd (Init_scan c v i f)) = true;
  Init_pose_inited : forall p v i f,
    HasInited (snd (Init_pose p v i f)) = true;
  Update_inited : forall i f,
    HasInited f = true -> HasInited (snd (Update i f)) = true;
  Correct_inited : forall i c p f,
    HasInited f = true -> HasInited (snd (Correct i c p f)) = true;
  GetGlobalMap_inited : forall f,
    HasInited (snd (GetGlobalMap f)) = HasInited f
}.

(** What a run of Updates shows of the filter: for each sample, front to
    back, whether Update accepted it and the odometry read back after it. *)
Fixpoint trajectory `{ops} (xs : list IMUData.t) (f : t)
    : list (bool * (Matrix4f * Vector3f)) :=
  match xs with
  | [] => []
  | x :: xs' =>
      let r := Update x f in
      (fst r, GetOdometry (snd r)) :: trajectory xs' (snd r)
  end.

(** Modelled from the spec: what a rejected [Correct] leaves in the filter;
    the filter's [Correct] is not among the sources.  Section 4.3: Correct
    "returns false if the measurement is judged inconsistent ..., in which
    case the nominal state is left at its predicted value - correction
    failure is non-fatal, propagation continues"; GetOdometry is a
    "read-only snapshot of current nominal state"; section 7: "a rejected
    correction is visible as the fused output staying on its propagated
    trajectory".  After a Correct that returned false, every run of Updates
    is accepted or refused, and reads back the odometry, as it would have
    been on the filter before that Correct.  Nothing is said of the rest of
    the filter (its covariance, its current scan). *)
Class rejection `{ops} : Prop := {
  Correct_rejected : forall i c p f,
    fst (fst (Correct i c p f)) = false ->
    forall xs, trajectory xs (snd (Correct i c p f)) = trajectory xs f
}.
End Filtering.

(** ** What the flow emits *)
Inductive Event `{Payload} : Type :=
| LookupData (found : bool)
| Publish_global_map (c : CLOUD_PTR)
| Publish_local_map (c : CLOUD_PTR)
| Publish_laser_odom (pose : Matrix4f) (time : float)
| Publish_current_scan (c : CLOUD_PTR)
| SendTransform (pose : Matrix4f) (time : float)
| Publish_fused_odom (pose : Matrix4f) (vel : Vector3f) (time : float)
| Call_Init_scan (c : CloudData.t) (v : Vector3f) (i : IMUData.t) (ok : bool)
| Call_Init_pose (p : Matrix4f) (v : Vector3f) (i : IMUData.t) (ok : bool)
| Call_Update (i : IMUData.t) (ok : bool)
| Call_Correct (i : IMUData.t) (c : CloudData.t) (ok : bool)
| Log_init_succeeded (deviation : Scalar)
| Log_init_failed.

(** ** What one call of [Run] receives from outside

    Modelled from the spec: the subscribers, the transform listener and the
    publishers' [HasSubscribers] are external collaborators (section 6):
    "Calibration lookup: a one-shot query (sensor frame A, sensor frame B)
    -> rigid transform or not-yet-available", and the streams are sequences
    of samples that ReadData appends to the buffers. *)
Record Tick `{Payload} : Type := {
  tf_lookup : option Matrix4f;
  global_map_has_subscribers : bool;
  local_map_has_subscribers : bool;
  new_imu_raw : list IMUData.t;
  new_cloud : list CloudData.t;
  new_gnss : list PoseData.t;
  new_imu_synced : list IMUData.t
}.

(** ** State and failure monad *)
Definition M (S A : Type) : Type := S -> option (A * S).

Definition ret {S A} (a : A) : M S A := fun s => Some (a, s).

Definition bind {S A B} (m : M S A) (k : A -> M S B) : M S B :=
  fun s => match m s with
           | Some (a, s') => k a s'
           | None => None
           end.

Definition gets {S A} (f : S -> A) : M S A := fun s => Some (f s, s).

Definition modify {S} (f : S -> S) : M S unit := fun s => Some (tt, f s).

(** Undefined behaviour, and a loop that did not finish within its fuel. *)
Definition stuck {S A} : M S A := fun _ => None.

Declare Scope flow_scope.
Delimit Scope flow_scope with flow.
Notation "x <- m ;; k" := (bind m (fun x => k))
  (at level 61, m at next level, right associativity) : flow_scope.
Notation "m ;; k" := (bind m (fun _ => k))
  (at level 61, right associativity) : flow_scope.
Open Scope flow_scope.

(** C++ [a && b]: [b] runs only when [a] gave true. *)
Definition andM {S} (a b : M S bool) : M S bool :=
  x <- a ;; if x then b else ret false.
Notation "a &&& b" := (andM a b) (at level 40, left associativity) : flow_scope.

(** [while (cond) body]: the condition is a call with effects of its own.
    The loop is stuck when the fuel does not reach the exit. *)
Fixpoint while {S} (fuel : nat) (cond : M S bool) (body : M S unit) : M S unit :=
  b <- cond ;;
  if b then
    match fuel with
    | O => stuck
    | S n => body ;; while n cond body
    end
  else ret tt.

(** [std::deque] operations. *)
Definition front {A} (d : list A) : option A := hd_error d.

Definition pop_front {A} (d : list A) : option (list A) :=
  match d with
  | [] => None
  | _ :: d' => Some d'
  end.

Definition push_back {A} (d : list A) (x : A) : list A := d ++ [x].

Definition empty {A} (d : list A) : bool :=
  match d with
  | [] => true
  | _ :: _ => false
  end.

(** ** FilteringFlow *)
Module FilteringFlow.

Section Flow.
Context {P : Payload} {F : Filtering.ops}.

(** The object's fields.  [calibration_received] is the function-local
    [static bool] of InitCalibration, which lives as long as the process;
    [emitted] is what has been sent out so far. *)
Record t : Type := Build {
  imu_raw_data_buff_ : list IMUData.t;
  cloud_data_buff_ : list CloudData.t;
  gnss_data_buff_ : list PoseData.t;
  imu_synced_data_buff_ : list IMUData.t;
  current_imu_raw_data_ : IMUData.t;
  current_cloud_data_ : CloudData.t;
  current_gnss_data_ : PoseData.t;
  current_imu_synced_data_ : IMUData.t;
  lidar_to_imu_ : Matrix4f;
  laser_pose_ : Matrix4f;
  fused_pose_ : Matrix4f;
  fused_vel_ : Vector3f;
  filtering_ptr_ : Filtering.t;
  calibration_received : bool;
  emitted : list Event
}.

Definition set_imu_raw_data_buff_ (v : list IMUData.t) (s : t) : t :=
  Build v (cloud_data_buff_ s) (gnss_data_buff_ s) (imu_synced_data_buff_ s)
    (current_imu_raw_data_ s) (current_cloud_data_ s) (current_gnss_data_ s)
    (current_imu_synced_data_ s) (lidar_to_imu_ s) (laser_pose_ s) (fused_pose_ s)
    (fused_vel_ s) (filtering_ptr_ s) (calibration_received s) (emitted s).

Definition set_cloud_data_buff_ (v : list CloudData.t) (s : t) : t :=
  Build (imu_raw_data_buff_ s) v (gnss_data_buff_ s) (imu_synced_data_buff_ s)
    (current_imu_raw_data_ s) (current_cloud_data_ s) (current_gnss_data_ s)
    (current_imu_synced_data_ s) (lidar_to_imu_ s) (laser_pose_ s) (fused_pose_ s)
    (fused_vel_ s) (filtering_ptr_ s) (calibration_received s) (emitted s).

Definition set_gnss_data_buff_ (v : list PoseData.t) (s : t) : t :=
  Build (imu_raw_data_buff_ s) (cloud_data_buff_ s) v (imu_synced_data_buff_ s)
    (current_imu_raw_data_ s) (current_cloud_data_ s) (current_gnss_data_ s)
    (current_imu_synced_data_ s) (lidar_to_imu_ s) (laser_pose_ s) (fused_pose_ s)
    (fused_vel_ s) (filtering_ptr_ s) (calibration_received s) (emitted s).

Definition set_imu_synced_data_buff_ (v : list IMUData.t) (s : t) : t :=
  Build (imu_raw_data_buff_ s) (cloud_data_buff_ s) (gnss_data_buff_ s) v
    (current_imu_raw_data_ s) (current_cloud_data_ s) (current_gnss_data_ s)
    (current_imu_synced_data_ s) (lidar_to_imu_ s) (laser_pose_ s) (fused_pose_ s)
    (fused_vel_ s) (filtering_ptr_ s) (calibration_received s) (emitted s).

Definition set_current_imu_raw_data_ (v : IMUData.t) (s : t) : t :=
  Build (imu_raw_data_buff_ s) (cloud_data_buff_ s) (gnss_data_buff_ s)
    (imu_synced_data_buff_ s) v (current_cloud_data_ s) (current_gnss_data_ s)
    (current_imu_synced_data_ s) (lidar_to_imu_ s) (laser_pose_ s) (fused_pose_ s)
    (fused_vel_ s) (filtering_ptr_ s) (calibration_received s) (emitted s).

Definition set_current_cloud_data_ (v : CloudData.t) (s : t) : t :=
  Build (imu_raw_data_buff_ s) (cloud_data_buff_ s) (gnss_data_buff_ s)
    (imu_synced_data_buff_ s) (current_imu_raw_data_ s) v (current_gnss_data_ s)
    (current_imu_synced_data_ s) (lidar_to_imu_ s) (laser_pose_ s) (fused_pose_ s)
    (fused_vel_ s) (filtering_ptr_ s) (calibration_received s) (emitted s).

Definition set_current_gnss_data_ (v : PoseData.t) (s : t) : t :=
  Build (imu_raw_data_buff_ s) (cloud_data_buff_ s) (gnss_data_buff_ s)
    (imu_synced_data_buff_ s) (current_imu_raw_data_ s) (current_cloud_data_ s) v
    (current_imu_synced_data_ s) (lidar_to_imu_ s) (laser_pose_ s) (fused_pose_ s)
    (fused_vel_ s) (filtering_ptr_ s) (calibration_received s) (emitted s).

Definition set_current_imu_synced_data_ (v : IMUData.t) (s : t) : t :=
  Build (imu_raw_data_buff_ s) (cloud_data_buff_ s) (gnss_data_buff_ s)
    (imu_synced_data_buff_ s) (current_imu_raw_data_ s) (current_cloud_data_ s)
    (current_gnss_data_ s) v (lidar_to_imu_ s) (laser_pose_ s) (fused_pose_ s)
    (fused_vel_ s) (filtering_ptr_ s) (calibration_received s) (emitted s).

Definition set_lidar_to_imu_ (v : Matrix4f) (s : t) : t :=
  Build (imu_raw_data_buff_ s) (cloud_data_buff_ s) (gnss_data_buff_ s)
    (imu_synced_data_buff_ s) (current_imu_raw_data_ s) (current_cloud_data_ s)
    (current_gnss_data_ s) (current_imu_synced_data_ s) v (laser_pose_ s)
    (fused_pose_ s) (fused_vel_ s) (filtering_ptr_ s) (calibration_received s)
    (emitted s).

Definition set_laser_pose_ (v : Matrix4f) (s : t) : t :=
  Build (imu_raw_data_buff_ s) (cloud_data_buff_ s) (gnss_data_buff_ s)
    (imu_synced_data_buff_ s) (current_imu_raw_data_ s) (current_cloud_data_ s)
    (current_gnss_data_ s) (current_imu_synced_data_ s) (lidar_to_imu_ s) v
    (fused_pose_ s) (fused_vel_ s) (filtering_ptr_ s) (calibration_received s)
    (emitted s).

Definition set_fused_pose_ (v : Matrix4f) (s : t) : t :=
  Build (imu_raw_data_buff_ s) (cloud_data_buff_ s) (gnss_data_buff_ s)
    (imu_synced_data_buff_ s) (current_imu_raw_data_ s) (current_cloud_data_ s)
    (current_gnss_data_ s) (current_imu_synced_data_ s) (lidar_to_imu_ s)
    (laser_pose_ s) v (fused_vel_ s) (filtering_ptr_ s) (calibration_received s)
    (emitted s).

Definition set_fused_vel_ (v : Vector3f) (s : t) : t :=
  Build (imu_raw_data_buff_ s) (cloud_data_buff_ s) (gnss_data_buff_ s)
    (imu_synced_data_buff_ s) (current_imu_raw_data_ s) (current_cloud_data_ s)
    (current_gnss_data_ s) (current_imu_synced_data_ s) (lidar_to_imu_ s)
    (laser_pose_ s) (fused_pose_ s) v (filtering_ptr_ s) (calibration_received s)
    (emitted s).

Definition set_filtering_ptr_ (v : Filtering.t) (s : t) : t :=
  Build (imu_raw_data_buff_ s) (cloud_data_buff_ s) (gnss_data_buff_ s)
    (imu_synced_data_buff_ s) (current_imu_raw_data_ s) (current_cloud_data_ s)
    (current_gnss_data_ s) (current_imu_synced_data_ s) (lidar_to_imu_ s)
    (laser_pose_ s) (fused_pose_ s) (fused_vel_ s) v (calibration_received s)
    (emitted s).

Definition set_calibration_received (v : bool) (s : t) : t :=
  Build (imu_raw_data_buff_ s) (cloud_data_buff_ s) (gnss_data_buff_ s)
    (imu_synced_data_buff_ s) (current_imu_raw_data_ s) (current_cloud_data_ s)
    (current_gnss_data_ s) (current_imu_synced_data_ s) (lidar_to_imu_ s)
    (laser_pose_ s) (fused_pose_ s) (fused_vel_ s) (filtering_ptr_ s) v (emitted s).

Definition set_emitted (v : list Event) (s : t) : t :=
  Build (imu_raw_data_buff_ s) (cloud_data_buff_ s) (gnss_data_buff_ s)
    (imu_synced_data_buff_ s) (current_imu_raw_data_ s) (current_cloud_data_ s)
    (current_gnss_data_ s) (current_imu_synced_data_ s) (lidar_to_imu_ s)
    (laser_pose_ s) (fused_pose_ s) (fused_vel_ s) (filtering_ptr_ s)
    (calibration_received s) v.

Definition emit (e : Event) : M t unit :=
  modify (fun s => set_emitted (emitted s ++ [e]) s).

(** [front()] and [pop_front()] of a buffer field: stuck on an empty deque. *)
Definition front_of {A} (buff : t -> list A) : M t A :=
  fun s => match front (buff s) with
           | Some x => Some (x, s)
           | None => None
           end.

Definition pop_front_of {A} (buff : t -> list A) (set : list A -> t -> t) : M t unit :=
  fun s => match pop_front (buff s) with
           | Some d => Some (tt, set d s)
           | None => None
           end.

(** A call of a member function of the filter that may change it. *)
Definition call {A} (op : Filtering.t -> A * Filtering.t) : M t A :=
  fun s => let '(a, f) := op (filtering_ptr_ s) in Some (a, set_filtering_ptr_ f s).

(** Modelled from the spec: HasIMUData and HasLidarData are defined inline in
    filtering_flow.hpp, which is not among the sources.  Section 4.4 speaks
    of "every buffered inertial-raw sample" and of "any further available
    raw-inertial sample", and of a "time-aligned absolute/lidar/
    synced-inertial triple" being available; HasData below, which is in the
    sources, tests the same buffers with [empty()]. *)
Definition HasIMUData : M t bool :=
  gets (fun s => negb (empty (imu_raw_data_buff_ s))).

Definition HasLidarData : M t bool :=
  gets (fun s => negb (empty (cloud_data_buff_ s))
                 && negb (empty (gnss_data_buff_ s))
                 && negb (empty (imu_synced_data_buff_ s))).

Definition HasInited : M t bool :=
  gets (fun s => Filtering.HasInited (filtering_ptr_ s)).

Definition HasData : M t bool :=
  inited <- HasInited ;;
  s <- gets (fun s => s) ;;
  if negb inited then
    if empty (cloud_data_buff_ s) || empty (gnss_data_buff_ s)
       || empty (imu_synced_data_buff_ s)
    then ret false
    else ret true
  else
    if empty (imu_raw_data_buff_ s)
       && (empty (cloud_data_buff_ s) || empty (gnss_data_buff_ s)
           || empty (imu_synced_data_buff_ s))
    then ret false
    else ret true.

Definition ReadData (tick : Tick) : M t bool :=
  modify (fun s => set_imu_raw_data_buff_ (imu_raw_data_buff_ s ++ new_imu_raw tick) s) ;;
  modify (fun s => set_cloud_data_buff_ (cloud_data_buff_ s ++ new_cloud tick) s) ;;
  modify (fun s => set_gnss_data_buff_ (gnss_data_buff_ s ++ new_gnss tick) s) ;;
  modify (fun s =>
    set_imu_synced_data_buff_ (imu_synced_data_buff_ s ++ new_imu_synced tick) s) ;;
  ret true.

Definition ValidIMUData : M t bool :=
  x <- front_of imu_raw_data_buff_ ;;
  modify (set_current_imu_raw_data_ x) ;;
  pop_front_of imu_raw_data_buff_ set_imu_raw_data_buff_ ;;
  ret true.

Definition ValidLidarData : M t bool :=
  c <- front_of cloud_data_buff_ ;;
  modify (set_current_cloud_data_ c) ;;
  g <- front_of gnss_data_buff_ ;;
  modify (set_current_gnss_data_ g) ;;
  i <- front_of imu_synced_data_buff_ ;;
  modify (set_current_imu_synced_data_ i) ;;
  filter_time <- gets (fun s => Filtering.GetTime (filtering_ptr_ s)) ;;
  let diff_filter_time := (CloudData.time c - filter_time)%float in
  let diff_gnss_time := (CloudData.time c - PoseData.time g)%float in
  let diff_imu_time := (CloudData.time c - IMUData.time i)%float in
  if (diff_gnss_time <? -0.05)%float || (diff_imu_time <? -0.05)%float then
    pop_front_of cloud_data_buff_ set_cloud_data_buff_ ;;
    ret false
  else if (diff_gnss_time >? 0.05)%float then
    pop_front_of gnss_data_buff_ set_gnss_data_buff_ ;;
    ret false
  else if (diff_imu_time >? 0.05)%float then
    pop_front_of imu_synced_data_buff_ set_imu_synced_data_buff_ ;;
    ret false
  else
    pop_front_of cloud_data_buff_ set_cloud_data_buff_ ;;
    pop_front_of gnss_data_buff_ set_gnss_data_buff_ ;;
    pop_front_of imu_synced_data_buff_ set_imu_synced_data_buff_ ;;
    ret true.

Definition InitCalibration (lookup : option Matrix4f) : M t bool :=
  received <- gets calibration_received ;;
  (if negb received then
     match lookup with
     | Some transform =>
         emit (LookupData true) ;;
         modify (set_lidar_to_imu_ transform) ;;
         modify (set_calibration_received true)
     | None => emit (LookupData false)
     end
   else ret tt) ;;
  gets calibration_received.

Definition PublishFusionOdom : M t bool :=
  odom <- gets (fun s => Filtering.GetOdometry (filtering_ptr_ s)) ;;
  modify (set_fused_pose_ (fst odom)) ;;
  modify (set_fused_vel_ (snd odom)) ;;
  s <- gets (fun s => s) ;;
  emit (SendTransform (fused_pose_ s) (IMUData.time (current_imu_raw_data_ s))) ;;
  emit (Publish_fused_odom (fused_pose_ s) (fused_vel_ s)
          (IMUData.time (current_imu_raw_data_ s))) ;;
  ret true.

Definition PublishLidarOdom : M t bool :=
  s <- gets (fun s => s) ;;
  emit (Publish_laser_odom (laser_pose_ s) (CloudData.time (current_cloud_data_ s))) ;;
  emit (Publish_current_scan (Filtering.GetCurrentScan (filtering_ptr_ s))) ;;
  ret true.

Definition PublishGlobalMap (has_subscribers : bool) : M t bool :=
  has_new <- gets (fun s => Filtering.HasNewGlobalMap (filtering_ptr_ s)) ;;
  if has_new && has_subscribers then
    global_map_ptr <- call Filtering.GetGlobalMap ;;
    emit (Publish_global_map global_map_ptr) ;;
    ret true
  else ret false.

Definition PublishLocalMap (has_subscribers : bool) : M t bool :=
  has_new <- gets (fun s => Filtering.HasNewLocalMap (filtering_ptr_ s)) ;;
  if has_new && has_subscribers then
    local_map <- gets (fun s => Filtering.GetLocalMap (filtering_ptr_ s)) ;;
    emit (Publish_local_map local_map) ;;
    ret true
  else ret false.

Definition InitLocalization : M t bool :=
  init_vel <- gets (fun s => PoseData.vel (current_gnss_data_ s)) ;;
  cloud <- gets current_cloud_data_ ;;
  imu <- gets current_imu_synced_data_ ;;
  ok <- call (Filtering.Init_scan cloud init_vel imu) ;;
  emit (Call_Init_scan cloud init_vel imu ok) ;;
  (if ok then
     init_pose <- gets (fun s => Filtering.GetPose (filtering_ptr_ s)) ;;
     gnss <- gets current_gnss_data_ ;;
     let deviation := translation_distance init_pose (PoseData.pose gnss) in
     emit (Log_init_succeeded deviation)
   else
     gnss <- gets current_gnss_data_ ;;
     imu <- gets current_imu_synced_data_ ;;
     ok' <- call (Filtering.Init_pose (PoseData.pose gnss) init_vel imu) ;;
     emit (Call_Init_pose (PoseData.pose gnss) init_vel imu ok') ;;
     emit Log_init_failed) ;;
  n <- gets (fun s => length (imu_raw_data_buff_ s)) ;;
  while n
    (HasIMUData &&&
     (x <- front_of imu_raw_data_buff_ ;;
      synced <- gets current_imu_synced_data_ ;;
      ret (IMUData.time x <? IMUData.time synced)%float))
    (pop_front_of imu_raw_data_buff_ set_imu_raw_data_buff_) ;;
  ret true.

Definition UpdateLocalization : M t bool :=
  x <- gets current_imu_raw_data_ ;;
  ok <- call (Filtering.Update x) ;;
  emit (Call_Update x ok) ;;
  if ok then
    PublishFusionOdom ;;
    ret true
  else ret false.

Definition CorrectLocalization : M t bool :=
  s <- gets (fun s => s) ;;
  r <- call (fun f =>
         let '(ok, pose, f') :=
           Filtering.Correct (current_imu_synced_data_ s) (current_cloud_data_ s)
             (laser_pose_ s) f in
         ((ok, pose), f')) ;;
  modify (set_laser_pose_ (snd r)) ;;
  let is_fusion_succeeded := fst r in
  emit (Call_Correct (current_imu_synced_data_ s) (current_cloud_data_ s)
          is_fusion_succeeded) ;;
  PublishLidarOdom ;;
  if is_fusion_succeeded then
    PublishFusionOdom ;;
    ret true
  else ret false.

(** The last conjunct of the inner loop's condition,
    [current_imu_raw_data_.time < current_cloud_data_.time]. *)
Definition older_than_cloud : M t bool :=
  gets (fun s => (IMUData.time (current_imu_raw_data_ s)
                  <? CloudData.time (current_cloud_data_ s))%float).

(** Lines 69-82: the drain of the raw buffer in front of a correction. *)
Definition drain_imu_raw : M t unit :=
  has_imu <- HasIMUData ;;
  if has_imu then
    n <- gets (fun s => length (imu_raw_data_buff_ s)) ;;
    while n (HasIMUData &&& ValidIMUData &&& older_than_cloud)
      (UpdateLocalization ;; ret tt) ;;
    s <- gets (fun s => s) ;;
    if (IMUData.time (current_imu_raw_data_ s)
        >=? CloudData.time (current_cloud_data_ s))%float
    then modify (set_imu_raw_data_buff_
                   (push_back (imu_raw_data_buff_ s) (current_imu_raw_data_ s)))
    else ret tt
  else ret tt.

(** Lines 62-90: the body of [while (HasData())]. *)
Definition cycle : M t unit :=
  inited <- HasInited ;;
  if negb inited then
    valid <- ValidLidarData ;;
    if valid then InitLocalization ;; ret tt else ret tt
  else
    aligned <- HasLidarData &&& ValidLidarData ;;
    (if aligned then
       drain_imu_raw ;;
       CorrectLocalization ;;
       ret tt
     else ret tt) ;;
    more <- HasIMUData &&& ValidIMUData ;;
    if more then UpdateLocalization ;; ret tt else ret tt.

(** The samples held in the four buffers: the fuel of the outer loop. *)
Definition buffered (s : t) : nat :=
  length (imu_raw_data_buff_ s) + length (cloud_data_buff_ s)
  + length (gnss_data_buff_ s) + length (imu_synced_data_buff_ s).

Definition Run (tick : Tick) : M t bool :=
  calibrated <- InitCalibration (tf_lookup tick) ;;
  if negb calibrated then ret false
  else
    PublishGlobalMap (global_map_has_subscribers tick) ;;
    PublishLocalMap (local_map_has_subscribers tick) ;;
    ReadData tick ;;
    n <- gets buffered ;;
    while n HasData cycle ;;
    ret true.

End Flow.
End FilteringFlow.

(** ** Vocabulary of the statements *)

(** A timestamp that is a number: IEEE comparison of a value with itself
    fails exactly on NaN. *)
Definition is_number (x : float) : bool := (x <=? x)%float.

(** Timestamps in non-decreasing order, all of them numbers: the order in
    which a sensor stream arrives. *)
Fixpoint ordered (ts : list float) : bool :=
  match ts with
  | [] => true
  | x :: rest =>
      match rest with
      | [] => is_number x
      | y :: _ => (x <=? y)%float && ordered rest
      end
  end.

(** The reference timestamp [a] and a companion's [b] differ by at most the
    tolerance: the difference the code computes, [a - b], has absolute value
    at most 0.05. *)
Definition within_tolerance (a b : float) : bool := (abs (a - b) <=? 0.05)%float.

(** The companion at [b] is more than the tolerance behind (older than) the
    reference at [a], or more than the tolerance ahead of (newer than) it. *)
Definition companion_behind (a b : float) : bool := (a - b >? 0.05)%float.
Definition companion_ahead (a b : float) : bool := (a - b <? -0.05)%float.

(** Two timestamps of which one at least is not a number: no comparison
    holds between them. *)
Definition unordered (a b : float) : bool := negb (is_number a) || negb (is_number b).

Section Vocabulary.
Context {P : Payload} {F : Filtering.ops}.

(** What PublishFusionOdom sends for the filter [f] while [x] is the current
    raw sample. *)
Definition fused_output (x : IMUData.t) (f : Filtering.t) : list Event :=
  [SendTransform (fst (Filtering.GetOdometry f)) (IMUData.time x);
   Publish_fused_odom (fst (Filtering.GetOdometry f)) (snd (Filtering.GetOdometry f))
     (IMUData.time x)].

(** One propagate per sample of [xs], front to back, each followed by a fused
    output when it succeeded: the events, and the filter afterwards. *)
Fixpoint propagate (xs : list IMUData.t) (f : Filtering.t) : list Event * Filtering.t :=
  match xs with
  | [] => ([], f)
  | x :: xs' =>
      let r := Filtering.Update x f in
      let out := Call_Update x (fst r)
                 :: (if fst r then fused_output x (snd r) else []) in
      (out ++ fst (propagate xs' (snd r)), snd (propagate xs' (snd r)))
  end.

Definition older_than (c : CloudData.t) (x : IMUData.t) : bool :=
  (IMUData.time x <? CloudData.time c)%float.

(** The events of kind [LookupData], and of InitLocalization's two log lines. *)
Definition is_lookup (e : Event) : bool :=
  match e with
  | LookupData _ => true
  | _ => false
  end.

Definition is_init_log (e : Event) : bool :=
  match e with
  | Log_init_succeeded _ | Log_init_failed => true
  | _ => false
  end.

(** Events that reach a publisher (a message or a transform sent out). *)
Definition is_publish (e : Event) : bool :=
  match e with
  | Publish_global_map _ | Publish_local_map _ | Publish_laser_odom _ _
  | Publish_current_scan _ | SendTransform _ _ | Publish_fused_odom _ _ _ => true
  | _ => false
  end.

(** Total correctness: [m] returns from [s] and its result satisfies [Q]. *)
Definition returns {S A} (m : M S A) (s : S) (Q : A -> S -> Prop) : Prop :=
  match m s with
  | Some (a, s') => Q a s'
  | None => False
  end.

(** ValidLidarData's first three assignments: the fronts of the cloud, GNSS
    and synced-IMU buffers become the current triple. *)
Definition latched (c : CloudData.t) (g : PoseData.t) (i : IMUData.t)
    (s : FilteringFlow.t) : FilteringFlow.t :=
  FilteringFlow.set_current_imu_synced_data_ i
    (FilteringFlow.set_current_gnss_data_ g
       (FilteringFlow.set_current_cloud_data_ c s)).

(** The flow after one propagate with the sample [x]: [x] is the current raw
    sample, the filter has been updated with it and, when the update
    succeeded, the fused pose and velocity have been read back and sent. *)
Definition propagate_step (x : IMUData.t) (s : FilteringFlow.t) : FilteringFlow.t :=
  let r := Filtering.Update x (FilteringFlow.filtering_ptr_ s) in
  let s1 := FilteringFlow.set_filtering_ptr_ (snd r)
              (FilteringFlow.set_current_imu_raw_data_ x s) in
  if fst r then
    FilteringFlow.set_emitted
      (FilteringFlow.emitted s ++ Call_Update x true :: fused_output x (snd r))
      (FilteringFlow.set_fused_vel_ (snd (Filtering.GetOdometry (snd r)))
         (FilteringFlow.set_fused_pose_ (fst (Filtering.GetOdometry (snd r))) s1))
  else
    FilteringFlow.set_emitted (FilteringFlow.emitted s ++ [Call_Update x false]) s1.

(** The flow after one propagate per sample of [xs], front to back. *)
Definition propagated (xs : list IMUData.t) (s : FilteringFlow.t) : FilteringFlow.t :=
  fold_left (fun s x => propagate_step x s) xs s.

(** The run of samples at the front of a buffer that are older than [c], and
    what follows it. *)
Fixpoint leading_older (c : CloudData.t) (l : list IMUData.t) : list IMUData.t :=
  match l with
  | [] => []
  | x :: l' => if older_than c x then x :: leading_older c l' else []
  end.

Fixpoint after_older (c : CloudData.t) (l : list IMUData.t) : list IMUData.t :=
  match l with
  | [] => []
  | x :: l' => if older_than c x then after_older c l' else l
  end.

(** The flow after the drain in front of a correction (lines 69-82): the
    leading older samples are propagated; the sample that stopped the loop
    has left the front of the buffer, is the current raw sample and, when
    its timestamp is [>=] the cloud's, is appended at the back. *)
Definition drained (s : FilteringFlow.t) : FilteringFlow.t :=
  let c := FilteringFlow.current_cloud_data_ s in
  let l := FilteringFlow.imu_raw_data_buff_ s in
  match after_older c l with
  | [] => propagated (leading_older c l) (FilteringFlow.set_imu_raw_data_buff_ [] s)
  | y :: r =>
      let s1 := FilteringFlow.set_current_imu_raw_data_ y
                  (propagated (leading_older c l)
                     (FilteringFlow.set_imu_raw_data_buff_ r s)) in
      if (IMUData.time y >=? CloudData.time c)%float
      then FilteringFlow.set_imu_raw_data_buff_ (push_back r y) s1
      else s1
  end.

(** The flow after CorrectLocalization: the filter has been corrected with
    the current synced sample and cloud, the laser pose and the current scan
    have been sent, and the fused output too when the correction succeeded. *)
Definition corrected (s : FilteringFlow.t) : FilteringFlow.t :=
  let r := Filtering.Correct (FilteringFlow.current_imu_synced_data_ s)
             (FilteringFlow.current_cloud_data_ s) (FilteringFlow.laser_pose_ s)
             (FilteringFlow.filtering_ptr_ s) in
  let ok := fst (fst r) in
  let s1 := FilteringFlow.set_laser_pose_ (snd (fst r))
              (FilteringFlow.set_filtering_ptr_ (snd r) s) in
  let sent :=
    [Call_Correct (FilteringFlow.current_imu_synced_data_ s)
       (FilteringFlow.current_cloud_data_ s) ok;
     Publish_laser_odom (snd (fst r))
       (CloudData.time (FilteringFlow.current_cloud_data_ s));
     Publish_current_scan (Filtering.GetCurrentScan (snd r))] in
  if ok then
    FilteringFlow.set_emitted
      (FilteringFlow.emitted s ++ sent
       ++ fused_output (FilteringFlow.current_imu_raw_data_ s) (snd r))
      (FilteringFlow.set_fused_vel_ (snd (Filtering.GetOdometry (snd r)))
         (FilteringFlow.set_fused_pose_ (fst (Filtering.GetOdometry (snd r))) s1))
  else FilteringFlow.set_emitted (FilteringFlow.emitted s ++ sent) s1.

(** The flow after the last statement of the loop body (lines 87-89): the
    front of the raw buffer, if there is one, is taken and propagated. *)
Definition tail_propagated (s : FilteringFlow.t) : FilteringFlow.t :=
  match FilteringFlow.imu_raw_data_buff_ s with
  | [] => s
  | x :: r => propagate_step x (FilteringFlow.set_imu_raw_data_buff_ r s)
  end.

(** The raw samples left once the leading ones that precede the synced
    sample [i] have been discarded. *)
Definition precedes (i x : IMUData.t) : bool := (IMUData.time x <? IMUData.time i)%float.

Fixpoint discard_preceding (i : IMUData.t) (l : list IMUData.t) : list IMUData.t :=
  match l with
  | [] => []
  | x :: l' => if precedes i x then discard_preceding i l' else l
  end.

(** The flow after the two initialization attempts of InitLocalization:
    the scan-context one, and the one from the GNSS pose when that failed. *)
Definition seeded (s : FilteringFlow.t) : FilteringFlow.t :=
  let cloud := FilteringFlow.current_cloud_data_ s in
  let gnss := FilteringFlow.current_gnss_data_ s in
  let imu := FilteringFlow.current_imu_synced_data_ s in
  let init_vel := PoseData.vel gnss in
  let r := Filtering.Init_scan cloud init_vel imu (FilteringFlow.filtering_ptr_ s) in
  if fst r then
    FilteringFlow.set_emitted
      (FilteringFlow.emitted s
       ++ [Call_Init_scan cloud init_vel imu true;
           Log_init_succeeded
             (translation_distance (Filtering.GetPose (snd r)) (PoseData.pose gnss))])
      (FilteringFlow.set_filtering_ptr_ (snd r) s)
  else
    let r' := Filtering.Init_pose (PoseData.pose gnss) init_vel imu (snd r) in
    FilteringFlow.set_emitted
      (FilteringFlow.emitted s
       ++ [Call_Init_scan cloud init_vel imu false;
           Call_Init_pose (PoseData.pose gnss) init_vel imu (fst r');
           Log_init_failed])
      (FilteringFlow.set_filtering_ptr_ (snd r') s).

(** The flow after InitLocalization. *)
Definition initialized (s : FilteringFlow.t) : FilteringFlow.t :=
  FilteringFlow.set_imu_raw_data_buff_
    (discard_preceding (FilteringFlow.current_imu_synced_data_ s)
       (FilteringFlow.imu_raw_data_buff_ s))
    (seeded s).

(** What a flow shows of the calibration: the static flag, the cached
    transform and the lookups made so far. *)
Definition calibration_view (s : FilteringFlow.t) : bool * Matrix4f * list Event :=
  (FilteringFlow.calibration_received s, FilteringFlow.lidar_to_imu_ s,
   filter is_lookup (FilteringFlow.emitted s)).

(** The log lines of the InitLocalization calls made so far. *)
Definition init_logs (s : FilteringFlow.t) : list Event :=
  filter is_init_log (FilteringFlow.emitted s).

Definition inited (s : FilteringFlow.t) : bool :=
  Filtering.HasInited (FilteringFlow.filtering_ptr_ s).

(** The three buffers of the aligned channels. *)
Definition lidar_buffers (s : FilteringFlow.t)
    : list CloudData.t * list PoseData.t * list IMUData.t :=
  (FilteringFlow.cloud_data_buff_ s, FilteringFlow.gnss_data_buff_ s,
   FilteringFlow.imu_synced_data_buff_ s).

(** The process around the flow: one call of Run per tick. *)
Fixpoint Runs (ticks : list Tick) : M FilteringFlow.t unit :=
  match ticks with
  | [] => ret tt
  | tick :: later => FilteringFlow.Run tick ;; Runs later
  end.

(** From the flow [s] to a later flow [s']: an initialized flow stays
    initialized and InitLocalization has not run again; an uninitialized one
    is either still uninitialized, InitLocalization not having run, or
    initialized, InitLocalization having run exactly once. *)
Definition init_once (s s' : FilteringFlow.t) : Prop :=
  if inited s
  then inited s' = true /\ init_logs s' = init_logs s
  else (inited s' = false /\ init_logs s' = init_logs s)
       \/ (inited s' = true /\ exists e, init_logs s' = init_logs s ++ [e]).

(** The calls of Update and Correct among the events. *)
Definition is_filter_call (e : Event) : bool :=
  match e with
  | Call_Update _ _ | Call_Correct _ _ _ => true
  | _ => false
  end.

(** The events of one step of the outer loop's work: an initialization by
    the scan context or by the GNSS pose, an Update with its fused output or
    refused, a Correct with the laser pose and the current scan, and with the
    fused output when it succeeded. *)
Inductive step_events : list Event -> Prop :=
| init_by_scan c v i d :
    step_events [Call_Init_scan c v i true; Log_init_succeeded d]
| init_by_pose c v i p ok :
    step_events [Call_Init_scan c v i false; Call_Init_pose p v i ok; Log_init_failed]
| update_sent x p v :
    step_events [Call_Update x true; SendTransform p (IMUData.time x);
                 Publish_fused_odom p v (IMUData.time x)]
| update_refused x :
    step_events [Call_Update x false]
| correct_sent i c pose scan p v t :
    step_events [Call_Correct i c true; Publish_laser_odom pose (CloudData.time c);
                 Publish_current_scan scan; SendTransform p t; Publish_fused_odom p v t]
| correct_refused i c pose scan :
    step_events [Call_Correct i c false; Publish_laser_odom pose (CloudData.time c);
                 Publish_current_scan scan].

Inductive steps : list Event -> Prop :=
| steps_nil : steps []
| steps_more b l : step_events b -> steps l -> steps (b ++ l).

(** The map events of one call of Run: at most one global map and then at
    most one local map, each only with a subscriber. *)
Definition map_events (tick : Tick) (maps : list Event) : Prop :=
  exists g l,
    maps = g ++ l
    /\ (g = [] \/ global_map_has_subscribers tick = true
                  /\ exists c, g = [Publish_global_map c])
    /\ (l = [] \/ local_map_has_subscribers tick = true
                  /\ exists c, l = [Publish_local_map c]).

(** What one call of Run emits, from a flow whose calibration flag was
    [received], when it returns [ok]: the lookup unless the calibration had
    been received, then the maps, then the steps of the loop; nothing after
    the lookup when it returns false. *)
Definition Run_events (tick : Tick) (received ok : bool) (sent : list Event) : Prop :=
  exists maps work,
    sent = (if received then [] else [LookupData ok]) ++ maps ++ work
    /\ (ok = false -> maps = [] /\ work = [])
    /\ map_events tick maps
    /\ steps work.

(** [s'] comes after [s] by steps of the loop's work. *)
Definition worked (s s' : FilteringFlow.t) : Prop :=
  exists work, FilteringFlow.emitted s' = FilteringFlow.emitted s ++ work /\ steps work.

(** The samples handed to Update, in the order of the calls. *)
Fixpoint updates (l : list Event) : list IMUData.t :=
  match l with
  | [] => []
  | Call_Update x _ :: l' => x :: updates l'
  | _ :: l' => updates l'
  end.

(** All timestamps of a buffer are numbers. *)
Definition raw_numbers (l : list IMUData.t) : Prop :=
  Forall (fun x => is_number (IMUData.time x) = true) l.

Definition cloud_numbers (l : list CloudData.t) : Prop :=
  Forall (fun c => is_number (CloudData.time c) = true) l.

(** The raw samples a flow has taken charge of so far: the ones handed to
    Update, in the order of the calls, and then the ones still buffered. *)
Definition accounted (s : FilteringFlow.t) : list IMUData.t :=
  updates (FilteringFlow.emitted s) ++ FilteringFlow.imu_raw_data_buff_ s.

(** With what [tick] delivers, one of the three aligned channels is still
    empty: HasLidarData is false after ReadData. *)
Definition no_triple (tick : Tick) (s : FilteringFlow.t) : Prop :=
  FilteringFlow.cloud_data_buff_ s ++ new_cloud tick = []
  \/ FilteringFlow.gnss_data_buff_ s ++ new_gnss tick = []
  \/ FilteringFlow.imu_synced_data_buff_ s ++ new_imu_synced tick = [].

(** The four buffers after ReadData has appended what [tick] delivers. *)
Definition read (tick : Tick) (s s' : FilteringFlow.t) : Prop :=
  FilteringFlow.imu_raw_data_buff_ s'
  = FilteringFlow.imu_raw_data_buff_ s ++ new_imu_raw tick
  /\ FilteringFlow.cloud_data_buff_ s'
     = FilteringFlow.cloud_data_buff_ s ++ new_cloud tick
  /\ FilteringFlow.gnss_data_buff_ s'
     = FilteringFlow.gnss_data_buff_ s ++ new_gnss tick
  /\ FilteringFlow.imu_synced_data_buff_ s'
     = FilteringFlow.imu_synced_data_buff_ s ++ new_imu_synced tick.

End Vocabulary.

(** ** A stand-in filter and concrete flows to run the model on *)
Module Bench.

#[export] Instance payload : Payload := {|
  CLOUD_PTR := nat;
  Matrix4f := nat;
  Vector3f := nat;
  Scalar := nat;
  translation_distance := fun a b => (a - b) + (b - a)
|}.

(** Modelled from the spec: a filter to run the flow with, in place of the
    one that is not among the sources.  It keeps the initialization flag,
    the internal clock and a pose.  Section 4.3: Init "resets internal clock
    to the seeding sample's timestamp"; Predict "fails ... only if called
    with a sample older than the filter's current internal clock".  The
    scan-context initialization and the correction fail on the scan 0. *)
Record clock_filter : Type := {
  has_inited_ : bool;
  clock : float;
  current_pose_ : nat
}.

#[export] Instance stand_in : Filtering.ops := {|
  Filtering.t := clock_filter;
  Filtering.create := {| has_inited_ := false; clock := 0; current_pose_ := 0 |};
  Filtering.HasInited := has_inited_;
  Filtering.GetTime := clock;
  Filtering.GetPose := current_pose_;
  Filtering.Init_scan := fun c v i f =>
    match CloudData.cloud_ptr c with
    | O => (false, f)
    | S _ => (true, {| has_inited_ := true; clock := IMUData.time i;
                       current_pose_ := CloudData.cloud_ptr c |})
    end;
  Filtering.Init_pose := fun p v i f =>
    (true, {| has_inited_ := true; clock := IMUData.time i; current_pose_ := p |});
  Filtering.Update := fun i f =>
    if (clock f <=? IMUData.time i)%float
    then (true, {| has_inited_ := has_inited_ f; clock := IMUData.time i;
                   current_pose_ := current_pose_ f |})
    else (false, f);
  Filtering.Correct := fun i c laser f =>
    match CloudData.cloud_ptr c with
    | O => (false, laser, f)
    | S _ => (true, CloudData.cloud_ptr c,
              {| has_inited_ := has_inited_ f; clock := clock f;
                 current_pose_ := CloudData.cloud_ptr c |})
    end;
  Filtering.GetOdometry := fun f => (current_pose_ f, 0);
  Filtering.HasNewGlobalMap := fun _ => false;
  Filtering.HasNewLocalMap := fun _ => false;
  Filtering.GetGlobalMap := fun f => (0, f);
  Filtering.GetLocalMap := fun _ => 0;
  Filtering.GetCurrentScan := fun _ => 0
|}.

Definition imu (time : float) : IMUData.t :=
  {| IMUData.time := time; IMUData.linear_acceleration := 0;
     IMUData.angular_velocity := 0 |}.

Definition cloud (time : float) (scan : nat) : CloudData.t :=
  {| CloudData.time := time; CloudData.cloud_ptr := scan |}.

Definition gnss (time : float) : PoseData.t :=
  {| PoseData.time := time; PoseData.pose := 0; PoseData.vel := 0 |}.

(** A flow holding the given buffers around the filter [f]. *)
Definition flow (raw : list IMUData.t) (clouds : list CloudData.t)
    (poses : list PoseData.t) (synced : list IMUData.t) (f : clock_filter)
    : FilteringFlow.t :=
  FilteringFlow.Build raw clouds poses synced (imu 0) (cloud 0 0) (gnss 0) (imu 0)
    0 0 0 0 f false [].

Definition fresh : clock_filter := Filtering.create.

Definition running (time : float) : clock_filter :=
  {| has_inited_ := true; clock := time; current_pose_ := 0 |}.

(** The GNSS front is one second behind the cloud front. *)
Definition gnss_behind : FilteringFlow.t :=
  flow [] [cloud 1 1; cloud 1.1 2] [gnss 0; gnss 1] [imu 1; imu 1.1] fresh.

(** The GNSS front is one second ahead of the cloud front. *)
Definition gnss_ahead : FilteringFlow.t :=
  flow [] [cloud 0 1; cloud 1 2] [gnss 1; gnss 1.1] [imu 0; imu 1] fresh.

(** Both companions are behind the cloud front. *)
Definition both_behind : FilteringFlow.t :=
  flow [] [cloud 1 1] [gnss 0; gnss 1] [imu 0; imu 1] fresh.

(** An aligned triple at 3 s, raw samples on both sides of it. *)
Definition aligned : FilteringFlow.t :=
  flow [imu 1; imu 2; imu 5; imu 6; imu 7] [cloud 3 1] [gnss 3] [imu 3] (running 0).

(** Ordered streams: raw samples at 1, 5, 9 and 10 s, triples at 3 and 8 s. *)
Definition two_triples : FilteringFlow.t :=
  flow [imu 1; imu 5; imu 9; imu 10] [cloud 3 1; cloud 8 2] [gnss 3; gnss 8]
    [imu 3; imu 8] (running 0).

(** Before initialization: raw samples from 1 s on, the first triple at 3 s. *)
Definition starting : FilteringFlow.t :=
  flow [imu 1; imu 2; imu 3; imu 4] [cloud 3 1] [gnss 3] [imu 3] fresh.

Definition quiet : Tick :=
  {| tf_lookup := None; global_map_has_subscribers := false;
     local_map_has_subscribers := false; new_imu_raw := []; new_cloud := [];
     new_gnss := []; new_imu_synced := [] |}.

Definition calibrating (transform : nat) : Tick :=
  {| tf_lookup := Some transform; global_map_has_subscribers := false;
     local_map_has_subscribers := false; new_imu_raw := []; new_cloud := [];
     new_gnss := []; new_imu_synced := [] |}.

(** [starting] once ValidLidarData has accepted its triple: the flow that
    InitLocalization is called on. *)
Definition seeding : FilteringFlow.t :=
  latched (cloud 3 1) (gnss 3) (imu 3)
    (flow [imu 1; imu 2; imu 3; imu 4] [] [] [] fresh).

(** The same with the scan 0, on which the scan-context Init fails. *)
Definition seeding_without_scan : FilteringFlow.t :=
  latched (cloud 3 0) (gnss 3) (imu 3)
    (flow [imu 1; imu 2; imu 3; imu 4] [] [] [] fresh).

(** [aligned] once ValidLidarData has accepted its triple: the flow that the
    drain in front of the correction runs on. *)
Definition draining : FilteringFlow.t :=
  latched (cloud 3 1) (gnss 3) (imu 3)
    (flow [imu 1; imu 2; imu 5; imu 6; imu 7] [] [] [] (running 0)).

(** A newly constructed flow: empty buffers around a newly constructed
    filter, the calibration not yet received. *)
Definition constructed : FilteringFlow.t := flow [] [] [] [] Filtering.create.

(** What the subscribers deliver, in timestamp order on every channel.
    First the transform, a triple at 0 s and a raw sample at 0 s. *)
Definition first_tick : Tick :=
  {| tf_lookup := Some 0; global_map_has_subscribers := false;
     local_map_has_subscribers := false; new_imu_raw := [imu 0];
     new_cloud := [cloud 0 1]; new_gnss := [gnss 0]; new_imu_synced := [imu 0] |}.

(** Then raw samples at 1, 5, 9 and 10 s and triples at 3 and 8 s. *)
Definition tick_with_two_triples : Tick :=
  {| tf_lookup := Some 0; global_map_has_subscribers := false;
     local_map_has_subscribers := false;
     new_imu_raw := [imu 1; imu 5; imu 9; imu 10];
     new_cloud := [cloud 3 1; cloud 8 2]; new_gnss := [gnss 3; gnss 8];
     new_imu_synced := [imu 3; imu 8] |}.

(** Or raw samples at 1, 2, 5, 6 and 7 s and a triple at 3 s. *)
Definition tick_with_one_triple : Tick :=
  {| tf_lookup := Some 0; global_map_has_subscribers := false;
     local_map_has_subscribers := false;
     new_imu_raw := [imu 1; imu 2; imu 5; imu 6; imu 7];
     new_cloud := [cloud 3 1]; new_gnss := [gnss 3]; new_imu_synced := [imu 3] |}.

(** A cloud whose stamp is not a number, in front of a GNSS pose at 0 s and
    a synced IMU sample at 100 s. *)
Definition unstamped_cloud : FilteringFlow.t :=
  flow [] [cloud nan 1] [gnss 0] [imu 100] fresh.

(** The drain in front of a correction at 3 s, over a raw buffer whose
    second sample has a stamp that is not a number. *)
Definition draining_unstamped : FilteringFlow.t :=
  latched (cloud 3 1) (gnss 3) (imu 3)
    (flow [imu 1; imu nan; imu 2] [] [] [] (running 0)).

(** The flow [s] once the transform has been looked up. *)
Definition calibrated (s : FilteringFlow.t) : FilteringFlow.t :=
  FilteringFlow.set_calibration_received true s.

(** A tick that delivers one raw sample and nothing on the other channels. *)
Definition raw_only : Tick :=
  {| tf_lookup := None; global_map_has_subscribers := false;
     local_map_has_subscribers := false; new_imu_raw := [imu 3]; new_cloud := [];
     new_gnss := []; new_imu_synced := [] |}.

(** Raw samples at 1 and 2 s and no triple, around an initialized filter and
    around a new one. *)
Definition propagating : FilteringFlow.t :=
  calibrated (flow [imu 1; imu 2] [] [] [] (running 0)).

Definition waiting : FilteringFlow.t :=
  calibrated (flow [imu 1; imu 2] [] [] [] fresh).

(** An initialized flow whose triple at 3 s carries the scan 0, on which the
    stand-in filter's Correct fails; raw samples at 1 and 4 s. *)
Definition rejecting : FilteringFlow.t :=
  flow [imu 1; imu 4] [cloud 3 0] [gnss 3] [imu 3] (running 0).

(** [rejecting] once ValidLidarData has accepted its triple. *)
Definition rejecting_accepted : FilteringFlow.t :=
  FilteringFlow.set_imu_synced_data_buff_ []
    (FilteringFlow.set_gnss_data_buff_ []
       (FilteringFlow.set_cloud_data_buff_ []
          (latched (cloud 3 0) (gnss 3) (imu 3) rejecting))).

(** InitLocalization's flow with a raw buffer that is not in timestamp
    order: the sample at 5 s in front of those at 1, 2 and 4 s. *)
Definition seeding_unordered : FilteringFlow.t :=
  latched (cloud 3 1) (gnss 3) (imu 3)
    (flow [imu 5; imu 1; imu 2; imu 4] [] [] [] fresh).

(** InitLocalization's flow with a seeding synced sample whose stamp is not
    a number. *)
Definition seeding_unstamped : FilteringFlow.t :=
  latched (cloud 3 1) (gnss 3) (imu nan)
    (flow [imu 1; imu 2; imu 3; imu 4] [] [] [] fresh).

End Bench.

(** * Theorems *)

(** ** Comparison of doubles

    The facts about [<], [<=] and [fabs] on binary64 values that the flow's
    timestamp tests rest on, from the IEEE specification of the primitive
    operations. *)
Module Double.

Ltac compare_cases :=
  repeat match goal with
  | |- context [Z.compare ?a ?b] => destruct (Z.compare_spec a b)
  | H : context [Z.compare ?a ?b] |- _ => destruct (Z.compare_spec a b)
  | |- context [Pos.compare ?a ?b] => destruct (Pos.compare_spec a b)
  | H : context [Pos.compare ?a ?b] |- _ => destruct (Pos.compare_spec a b)
  end.

Ltac by_spec_cases :=
  cbn; repeat match goal with s : bool |- _ => destruct s end; cbn;
  try congruence;
  change (Pcompare ?a ?b Eq) with (Pos.compare a b) in *;
  intros; compare_cases; cbn in *; try congruence; try reflexivity; try lia.

Lemma SFleb_trans x y z :
  SFleb x y = true -> SFleb y z = true -> SFleb x z = true.
Proof.
  unfold SFleb.
  destruct x as [sx|sx| |sx mx ex], y as [sy|sy| |sy my ey],
    z as [sz|sz| |sz mz ez]; by_spec_cases.
Qed.

Lemma SFleb_ltb_false x y : SFleb x y = true -> SFltb y x = false.
Proof.
  unfold SFleb, SFltb.
  destruct x as [sx|sx| |sx mx ex], y as [sy|sy| |sy my ey]; by_spec_cases.
Qed.

Lemma SFltb_false_leb x y :
  SFleb x x = true -> SFleb y y = true -> SFltb x y = false -> SFleb y x = true.
Proof.
  unfold SFleb, SFltb.
  destruct x as [sx|sx| |sx mx ex], y as [sy|sy| |sy my ey]; by_spec_cases.
Qed.

Lemma SFleb_number_l x y : SFleb x y = true -> SFleb x x = true.
Proof.
  unfold SFleb.
  destruct x as [sx|sx| |sx mx ex], y as [sy|sy| |sy my ey]; by_spec_cases.
Qed.

Lemma SFleb_number_r x y : SFleb x y = true -> SFleb y y = true.
Proof.
  unfold SFleb.
  destruct x as [sx|sx| |sx mx ex], y as [sy|sy| |sy my ey]; by_spec_cases.
Qed.

Lemma SFabs_leb_bounds x c :
  SFleb (SFabs x) c = true ->
  SFltb x (SFopp c) = false /\ SFltb c x = false.
Proof.
  unfold SFleb, SFltb.
  destruct x as [sx|sx| |sx mx ex], c as [sc|sc| |sc mc ec];
    intros H; split; revert H; by_spec_cases.
Qed.

Lemma leb_trans (x y z : float) :
  (x <=? y)%float = true -> (y <=? z)%float = true -> (x <=? z)%float = true.
Proof. rewrite !leb_spec. apply SFleb_trans. Qed.

Lemma leb_not_ltb (x y : float) :
  (x <=? y)%float = true -> (y <? x)%float = false.
Proof. rewrite leb_spec, ltb_spec. apply SFleb_ltb_false. Qed.

Lemma not_ltb_leb (x y : float) :
  is_number x = true -> is_number y = true ->
  (x <? y)%float = false -> (y <=? x)%float = true.
Proof. unfold is_number. rewrite !leb_spec, ltb_spec. apply SFltb_false_leb. Qed.

Lemma leb_is_number_l (x y : float) : (x <=? y)%float = true -> is_number x = true.
Proof. unfold is_number. rewrite !leb_spec. apply SFleb_number_l. Qed.

Lemma leb_is_number_r (x y : float) : (x <=? y)%float = true -> is_number y = true.
Proof. unfold is_number. rewrite !leb_spec. apply SFleb_number_r. Qed.

(** A sample not older than [c], in an ordered stream, is followed only by
    samples not older than [c]. *)
Lemma not_ltb_mono (x y c : float) :
  (x <=? y)%float = true -> (x <? c)%float = false -> (y <? c)%float = false.
Proof.
  intros Hxy Hxc.
  destruct (c <=? c)%float eqn:Hc.
  - apply leb_not_ltb. apply leb_trans with x; [|exact Hxy].
    apply not_ltb_leb; [eapply leb_is_number_l; eassumption | exact Hc | exact Hxc].
  - destruct (y <? c)%float eqn:Hyc; [|reflexivity].
    assert (is_number c = true) as Hn.
    { unfold is_number. rewrite leb_spec. rewrite ltb_spec in Hyc.
      revert Hyc. unfold SFltb, SFleb.
      destruct (Prim2SF y) as [sy|sy| |sy my ey], (Prim2SF c) as [sc|sc| |sc mc ec];
        by_spec_cases. }
    unfold is_number in Hn. congruence.
Qed.

(** Within the tolerance, neither of the two tests of ValidLidarData fires. *)
Lemma within_tolerance_bounds (a b : float) :
  within_tolerance a b = true ->
  (a - b <? -0.05)%float = false /\ (a - b >? 0.05)%float = false.
Proof.
  unfold within_tolerance. rewrite leb_spec, !ltb_spec, abs_spec.
  intros H. apply SFabs_leb_bounds in H.
  replace (Prim2SF (-0.05)) with (SFopp (Prim2SF 0.05)) by (vm_compute; reflexivity).
  exact H.
Qed.

(** An ordered stream: its head is a number and is at most every later
    timestamp. *)
Lemma ordered_tail (x : float) (ts : list float) :
  ordered (x :: ts) = true -> ordered ts = true.
Proof.
  destruct ts as [|y ts]; [reflexivity|].
  cbn [ordered]. intros H. apply andb_prop in H. apply H.
Qed.

Lemma ordered_head_number (x : float) (ts : list float) :
  ordered (x :: ts) = true -> is_number x = true.
Proof.
  destruct ts as [|y ts]; cbn [ordered]; [tauto|].
  intros H. apply andb_prop in H. eapply leb_is_number_l, H.
Qed.

Lemma ordered_head_least (x : float) (ts : list float) :
  ordered (x :: ts) = true -> forall y, In y ts -> (x <=? y)%float = true.
Proof.
  revert x. induction ts as [|z ts IH]; intros x H y Hy; [destruct Hy|].
  cbn [ordered] in H. apply andb_prop in H. destruct H as [Hxz Hts].
  destruct Hy as [->|Hy]; [exact Hxz|].
  apply leb_trans with z; [exact Hxz|]. apply IH; assumption.
Qed.

Lemma ordered_all_numbers (ts : list float) :
  ordered ts = true -> forall x, In x ts -> is_number x = true.
Proof.
  induction ts as [|y ts IH]; intros H x Hx; [destruct Hx|].
  destruct Hx as [->|Hx].
  - eapply ordered_head_number, H.
  - apply IH; [eapply ordered_tail, H | exact Hx].
Qed.

(** *** Values that are not numbers *)

Lemma SFleb_self_false x : SFleb x x = false -> x = S754_nan.
Proof.
  unfold SFleb. destruct x as [sx|sx| |sx mx ex]; cbn; try destruct sx;
    try discriminate; try reflexivity;
    rewrite Z.compare_refl;
    change (Pcompare mx mx Eq) with (Pos.compare mx mx);
    rewrite Pos.compare_refl; discriminate.
Qed.

Lemma not_number_spec (x : float) : is_number x = false -> Prim2SF x = S754_nan.
Proof. unfold is_number. rewrite leb_spec. apply SFleb_self_false. Qed.

(** No comparison holds with a value that is not a number. *)
Lemma not_number_ltb_l (x y : float) : is_number x = false -> (x <? y)%float = false.
Proof. intros H. rewrite ltb_spec, (not_number_spec H). reflexivity. Qed.

Lemma not_number_ltb_r (x y : float) : is_number y = false -> (x <? y)%float = false.
Proof.
  intros H. rewrite ltb_spec, (not_number_spec H).
  destruct (Prim2SF x); reflexivity.
Qed.

Lemma not_number_leb_l (x y : float) : is_number x = false -> (x <=? y)%float = false.
Proof. intros H. rewrite leb_spec, (not_number_spec H). reflexivity. Qed.

Lemma not_number_leb_r (x y : float) : is_number y = false -> (x <=? y)%float = false.
Proof.
  intros H. rewrite leb_spec, (not_number_spec H).
  destruct (Prim2SF x); reflexivity.
Qed.

(** A difference with an operand that is not a number is not a number. *)
Lemma not_number_sub (x y : float) :
  is_number x = false \/ is_number y = false -> is_number (x - y) = false.
Proof.
  intros H. unfold is_number at 1. rewrite leb_spec, sub_spec. unfold SF64sub.
  destruct H as [H|H]; rewrite (not_number_spec H).
  - reflexivity.
  - destruct (Prim2SF x); reflexivity.
Qed.

End Double.

(** ** The flow *)
Section FlowTheorems.
Import FilteringFlow.
Context {P : Payload} {F : Filtering.ops}.

(** *** Running the monad *)

Lemma returns_bind {S A B} (m : M S A) (k : A -> M S B) (s : S) (Q : B -> S -> Prop) :
  returns (bind m k) s Q <-> returns m s (fun a s' => returns (k a) s' Q).
Proof.
  unfold returns, bind. destruct (m s) as [[a s']|]; reflexivity.
Qed.

Lemma returns_weaken {S A} (m : M S A) (s : S) (Q Q' : A -> S -> Prop) :
  (forall a s', Q a s' -> Q' a s') -> returns m s Q -> returns m s Q'.
Proof.
  unfold returns. destruct (m s) as [[a s']|]; auto.
Qed.

Lemma returns_eq {S A} (m : M S A) (s : S) (Q : A -> S -> Prop) :
  returns m s Q <-> exists a s', m s = Some (a, s') /\ Q a s'.
Proof.
  unfold returns. destruct (m s) as [[a s']|]; split.
  - intros H. exists a, s'. auto.
  - intros (a0 & s0 & E & H). inversion E. subst. exact H.
  - intros [].
  - intros (a0 & s0 & E & _). discriminate.
Qed.

(** The rule of a loop that ends: an invariant [I], and a measure that the
    condition never raises and a turn of the body lowers. *)
Lemma while_returns {S} (I J : S -> Prop) (mu : S -> nat) (cond : M S bool)
    (body : M S unit) :
  (forall s, I s ->
     returns cond s (fun b s1 =>
       if b then returns body s1 (fun _ s2 => I s2 /\ mu s2 < mu s)
       else J s1)) ->
  forall fuel s, I s -> mu s <= fuel ->
    returns (while fuel cond body) s (fun _ s' => J s').
Proof.
  intros Hstep fuel. induction fuel as [|n IH]; intros s Hs Hmu.
  - specialize (Hstep s Hs). unfold returns in *. cbn. unfold bind.
    destruct (cond s) as [[[] s1]|]; try contradiction.
    + destruct (body s1) as [[[] s2]|]; try contradiction. lia.
    + exact Hstep.
  - specialize (Hstep s Hs). unfold returns in *. cbn. unfold bind.
    destruct (cond s) as [[[] s1]|]; try contradiction.
    + destruct (body s1) as [[[] s2]|]; try contradiction.
      destruct Hstep as [H2 Hlt]. apply IH; [exact H2 | lia].
    + exact Hstep.
Qed.

(** *** ValidIMUData *)

(** C10.  With a sample at the front of the raw buffer, ValidIMUData returns
    true, makes that sample the current one and removes it from the buffer;
    nothing else of the flow changes.  No timestamp is looked at. *)
Theorem ValidIMUData_pops_front (s : t) (x : IMUData.t) (rest : list IMUData.t) :
  imu_raw_data_buff_ s = x :: rest ->
  ValidIMUData s
  = Some (true, set_imu_raw_data_buff_ rest (set_current_imu_raw_data_ x s)).
Proof.
  intros H. unfold ValidIMUData, bind, front_of, pop_front_of, modify, ret.
  rewrite H. cbn. rewrite H. reflexivity.
Qed.

(** *** ValidLidarData *)

Ltac run_flow :=
  unfold bind, front_of, pop_front_of, modify, gets, ret, call, emit, andM; cbn.

(** The four outcomes of ValidLidarData on three non-empty buffers, in the
    order in which the code tests for them. *)
Lemma ValidLidarData_outcome (s : t) c cs g gs i is_ :
  cloud_data_buff_ s = c :: cs ->
  gnss_data_buff_ s = g :: gs ->
  imu_synced_data_buff_ s = i :: is_ ->
  ValidLidarData s =
    if companion_ahead (CloudData.time c) (PoseData.time g)
       || companion_ahead (CloudData.time c) (IMUData.time i)
    then Some (false, set_cloud_data_buff_ cs (latched c g i s))
    else if companion_behind (CloudData.time c) (PoseData.time g)
    then Some (false, set_gnss_data_buff_ gs (latched c g i s))
    else if companion_behind (CloudData.time c) (IMUData.time i)
    then Some (false, set_imu_synced_data_buff_ is_ (latched c g i s))
    else Some (true, set_imu_synced_data_buff_ is_
                       (set_gnss_data_buff_ gs
                          (set_cloud_data_buff_ cs (latched c g i s)))).
Proof.
  intros Hc Hg Hi. destruct s. cbn in Hc, Hg, Hi. subst.
  unfold ValidLidarData, companion_ahead, companion_behind. run_flow.
  destruct (_ || _); [reflexivity|].
  destruct (_ <? _)%float; [reflexivity|].
  destruct (_ <? _)%float; reflexivity.
Qed.

(** Within the tolerance on both companions, none of the three tests of
    ValidLidarData fires. *)
Lemma within_tolerance_passes (c g i : float) :
  within_tolerance c g = true ->
  within_tolerance c i = true ->
  companion_ahead c g || companion_ahead c i = false
  /\ companion_behind c g = false
  /\ companion_behind c i = false.
Proof.
  intros Wg Wi. apply Double.within_tolerance_bounds in Wg, Wi.
  unfold companion_ahead, companion_behind.
  destruct Wg as [-> ->], Wi as [-> ->]. auto.
Qed.


(** C1, as the code has it.  On three non-empty buffers:
    - when the GNSS front or the synced-IMU front is more than 0.05 s ahead of
      the cloud (pose) front, the cloud front is dropped;
    - otherwise, when the GNSS front is more than 0.05 s behind the cloud
      front, the GNSS front is dropped and the cloud front stays;
    - otherwise, when the synced-IMU front is more than 0.05 s behind the
      cloud front, the synced-IMU front is dropped and the cloud front stays;
    each time the call returns false, and whenever it returns false exactly
    one of the three fronts has been dropped. *)
Theorem ValidLidarData_misaligned (s : t) c cs g gs i is_ :
  cloud_data_buff_ s = c :: cs ->
  gnss_data_buff_ s = g :: gs ->
  imu_synced_data_buff_ s = i :: is_ ->
  let ahead := companion_ahead (CloudData.time c) (PoseData.time g)
               || companion_ahead (CloudData.time c) (IMUData.time i) in
  let gnss_behind := companion_behind (CloudData.time c) (PoseData.time g) in
  let imu_behind := companion_behind (CloudData.time c) (IMUData.time i) in
  (ahead = true ->
   ValidLidarData s = Some (false, set_cloud_data_buff_ cs (latched c g i s)))
  /\ (ahead = false -> gnss_behind = true ->
      ValidLidarData s = Some (false, set_gnss_data_buff_ gs (latched c g i s)))
  /\ (ahead = false -> gnss_behind = false -> imu_behind = true ->
      ValidLidarData s
      = Some (false, set_imu_synced_data_buff_ is_ (latched c g i s)))
  /\ (forall s', ValidLidarData s = Some (false, s') ->
      s' = set_cloud_data_buff_ cs (latched c g i s)
      \/ s' = set_gnss_data_buff_ gs (latched c g i s)
      \/ s' = set_imu_synced_data_buff_ is_ (latched c g i s)).
Proof.
  intros Hc Hg Hi ahead gnss_behind imu_behind.
  rewrite (ValidLidarData_outcome s Hc Hg Hi).
  fold ahead gnss_behind imu_behind.
  destruct ahead, gnss_behind, imu_behind; repeat split; intros;
    try discriminate; try reflexivity;
    match goal with
    | H : Some _ = Some _ |- _ => inversion H; auto
    end.
Qed.

(** *** UpdateLocalization and the propagate of one sample *)

Lemma set_imu_raw_data_buff__same (s : t) :
  set_imu_raw_data_buff_ (imu_raw_data_buff_ s) s = s.
Proof. destruct s. reflexivity. Qed.

Lemma UpdateLocalization_step (x : IMUData.t) (s : t) :
  UpdateLocalization (set_current_imu_raw_data_ x s)
  = Some (fst (Filtering.Update x (filtering_ptr_ s)), propagate_step x s).
Proof.
  destruct s. unfold UpdateLocalization, PublishFusionOdom, propagate_step, fused_output.
  run_flow. destruct (Filtering.Update x _) as [[] f']; cbn.
  - unfold set_emitted. cbn. rewrite <- !app_assoc. reflexivity.
  - reflexivity.
Qed.

Lemma propagate_step_raw_buff (x : IMUData.t) (b : list IMUData.t) (s : t) :
  propagate_step x (set_imu_raw_data_buff_ b s)
  = set_imu_raw_data_buff_ b (propagate_step x s).
Proof.
  destruct s. unfold propagate_step. cbn.
  destruct (fst (Filtering.Update x _)); reflexivity.
Qed.

Lemma propagated_raw_buff (xs : list IMUData.t) (b : list IMUData.t) (s : t) :
  propagated xs (set_imu_raw_data_buff_ b s)
  = set_imu_raw_data_buff_ b (propagated xs s).
Proof.
  revert s. induction xs as [|x xs IH]; intros s; [reflexivity|].
  unfold propagated in *. cbn. rewrite propagate_step_raw_buff. apply IH.
Qed.

Lemma propagate_step_current_cloud (x : IMUData.t) (s : t) :
  current_cloud_data_ (propagate_step x s) = current_cloud_data_ s.
Proof.
  destruct s. unfold propagate_step. cbn.
  destruct (fst (Filtering.Update x _)); reflexivity.
Qed.

Lemma propagated_current_cloud (xs : list IMUData.t) (s : t) :
  current_cloud_data_ (propagated xs s) = current_cloud_data_ s.
Proof.
  revert s. induction xs as [|x xs IH]; intros s; [reflexivity|].
  unfold propagated in *. cbn. rewrite IH. apply propagate_step_current_cloud.
Qed.

(** What [propagated] emits and leaves in the filter is [propagate] of the
    same samples. *)
Lemma propagated_emitted (xs : list IMUData.t) (s : t) :
  emitted (propagated xs s) = emitted s ++ fst (propagate xs (filtering_ptr_ s))
  /\ filtering_ptr_ (propagated xs s) = snd (propagate xs (filtering_ptr_ s)).
Proof.
  revert s. induction xs as [|x xs IH]; intros s.
  - cbn. rewrite app_nil_r. auto.
  - unfold propagated in *. cbn [fold_left propagate fst snd].
    destruct (IH (propagate_step x s)) as [IHe IHf]. rewrite IHe, IHf.
    assert (filtering_ptr_ (propagate_step x s)
            = snd (Filtering.Update x (filtering_ptr_ s))) as Ef.
    { destruct s. unfold propagate_step. cbn.
      destruct (fst (Filtering.Update x _)); reflexivity. }
    assert (emitted (propagate_step x s)
            = emitted s ++ Call_Update x (fst (Filtering.Update x (filtering_ptr_ s)))
                :: (if fst (Filtering.Update x (filtering_ptr_ s))
                    then fused_output x (snd (Filtering.Update x (filtering_ptr_ s)))
                    else [])) as Ee.
    { destruct s. unfold propagate_step. cbn.
      destruct (fst (Filtering.Update x _)); reflexivity. }
    rewrite Ef, Ee. rewrite <- !app_assoc. cbn. auto.
Qed.

(** *** The drain in front of a correction *)

Lemma propagate_step_raw_buff_of (x : IMUData.t) (s : t) :
  imu_raw_data_buff_ (propagate_step x s) = imu_raw_data_buff_ s.
Proof.
  destruct s. unfold propagate_step. cbn.
  destruct (fst (Filtering.Update x _)); reflexivity.
Qed.

Lemma set_imu_raw_data_buff__twice (b b' : list IMUData.t) (s : t) :
  set_imu_raw_data_buff_ b (set_imu_raw_data_buff_ b' s) = set_imu_raw_data_buff_ b s.
Proof. reflexivity. Qed.

(** The condition of the inner loop: false on an empty buffer; otherwise the
    front is taken out, becomes the current raw sample and is compared with
    the current cloud. *)
Lemma drain_cond_empty (s : t) :
  imu_raw_data_buff_ s = [] ->
  (HasIMUData &&& ValidIMUData &&& older_than_cloud) s = Some (false, s).
Proof.
  intros H. destruct s. cbn in H. subst. reflexivity.
Qed.

Lemma drain_cond_front (s : t) (y : IMUData.t) (r : list IMUData.t) :
  imu_raw_data_buff_ s = y :: r ->
  (HasIMUData &&& ValidIMUData &&& older_than_cloud) s
  = Some (older_than (current_cloud_data_ s) y,
          set_current_imu_raw_data_ y (set_imu_raw_data_buff_ r s)).
Proof.
  intros H. destruct s. cbn in H. subst.
  unfold HasIMUData, ValidIMUData, older_than_cloud, older_than. run_flow.
  destruct (_ <? _)%float; reflexivity.
Qed.

(** The inner loop on a buffer [older ++ rest], where every sample of
    [older] is older than the current cloud and the head of [rest], if any,
    is not: one propagate per sample of [older]; the head of [rest] is taken
    out of the buffer and is the current raw sample at the exit. *)
Lemma drain_loop (older rest : list IMUData.t) : forall (n : nat) (s : t),
  imu_raw_data_buff_ s = older ++ rest ->
  Forall (fun x => older_than (current_cloud_data_ s) x = true) older ->
  match rest with
  | [] => True
  | y :: _ => older_than (current_cloud_data_ s) y = false
  end ->
  length (older ++ rest) <= n ->
  while n (HasIMUData &&& ValidIMUData &&& older_than_cloud)
    (UpdateLocalization ;; ret tt) s
  = Some (tt, match rest with
              | [] => propagated older (set_imu_raw_data_buff_ [] s)
              | y :: r => set_current_imu_raw_data_ y
                            (propagated older (set_imu_raw_data_buff_ r s))
              end).
Proof.
  induction older as [|x xs IH]; intros n s Hbuf Hold Hrest Hn.
  - cbn [app] in Hbuf. destruct rest as [|y r].
    + assert (set_imu_raw_data_buff_ [] s = s) as ->
        by (rewrite <- Hbuf; apply set_imu_raw_data_buff__same).
      destruct n; cbn [while]; unfold bind at 1;
        rewrite (drain_cond_empty s Hbuf); reflexivity.
    + destruct n; cbn [while]; unfold bind at 1;
        rewrite (drain_cond_front s Hbuf), Hrest; reflexivity.
  - cbn [app] in Hbuf. inversion Hold as [|? ? Hx Hxs]; subst.
    destruct n as [|n]; [cbn in Hn; lia|].
    cbn [while]. unfold bind at 1. rewrite (drain_cond_front s Hbuf), Hx.
    unfold bind at 1. unfold bind at 1.
    rewrite UpdateLocalization_step. unfold ret at 1.
    rewrite IH.
    + rewrite propagate_step_raw_buff.
      destruct rest as [|y r]; rewrite <- !propagate_step_raw_buff; reflexivity.
    + rewrite propagate_step_raw_buff_of. reflexivity.
    + rewrite propagate_step_current_cloud. exact Hxs.
    + rewrite propagate_step_current_cloud. exact Hrest.
    + cbn in Hn. lia.
Qed.

Lemma leading_after_older (c : CloudData.t) (l : list IMUData.t) :
  l = leading_older c l ++ after_older c l.
Proof.
  induction l as [|x l IH]; [reflexivity|].
  cbn [leading_older after_older]. destruct (older_than c x); [|reflexivity].
  cbn [app]. f_equal. exact IH.
Qed.

Lemma leading_older_all (c : CloudData.t) (l : list IMUData.t) :
  Forall (fun x => older_than c x = true) (leading_older c l).
Proof.
  induction l as [|x l IH]; cbn [leading_older]; [constructor|].
  destruct (older_than c x) eqn:E; constructor; assumption.
Qed.

Lemma after_older_head (c : CloudData.t) (l : list IMUData.t) :
  match after_older c l with
  | [] => True
  | y :: _ => older_than c y = false
  end.
Proof.
  induction l as [|x l IH]; cbn [after_older]; [exact I|].
  destruct (older_than c x) eqn:E; [exact IH | exact E].
Qed.

Lemma propagate_step_current_raw (x : IMUData.t) (s : t) :
  current_imu_raw_data_ (propagate_step x s) = x.
Proof.
  destruct s. unfold propagate_step. cbn.
  destruct (fst (Filtering.Update x _)); reflexivity.
Qed.

Lemma last_nonempty {A} (x : A) (xs : list A) (d d' : A) :
  last (x :: xs) d = last (x :: xs) d'.
Proof.
  revert x. induction xs as [|y xs IH]; intros x; [reflexivity|].
  change (last (y :: xs) d = last (y :: xs) d'). apply IH.
Qed.

Lemma propagated_current_raw (xs : list IMUData.t) (s : t) :
  current_imu_raw_data_ (propagated xs s) = last xs (current_imu_raw_data_ s).
Proof.
  revert s. induction xs as [|x xs IH]; intros s; [reflexivity|].
  unfold propagated in *. cbn [fold_left]. rewrite IH, propagate_step_current_raw.
  destruct xs as [|y xs]; [reflexivity|].
  change (last (x :: y :: xs) (current_imu_raw_data_ s))
    with (last (y :: xs) (current_imu_raw_data_ s)).
  apply last_nonempty.
Qed.

Lemma propagated_raw_buff_of (xs : list IMUData.t) (s : t) :
  imu_raw_data_buff_ (propagated xs s) = imu_raw_data_buff_ s.
Proof.
  revert s. induction xs as [|x xs IH]; intros s; [reflexivity|].
  unfold propagated in *. cbn [fold_left]. rewrite IH. apply propagate_step_raw_buff_of.
Qed.

(** Lines 69-82 on any flow: the drain returns, and leaves the flow
    [drained]. *)
Lemma drain_imu_raw_drained (s : t) : drain_imu_raw s = Some (tt, drained s).
Proof.
  unfold drain_imu_raw, drained.
  pose proof (leading_after_older (current_cloud_data_ s) (imu_raw_data_buff_ s)) as Hsplit.
  pose proof (leading_older_all (current_cloud_data_ s) (imu_raw_data_buff_ s)) as Hold.
  pose proof (after_older_head (current_cloud_data_ s) (imu_raw_data_buff_ s)) as Hrest.
  set (c := current_cloud_data_ s) in *.
  set (older := leading_older c (imu_raw_data_buff_ s)) in *.
  set (rest := after_older c (imu_raw_data_buff_ s)) in *.
  clearbody older rest.
  unfold bind at 1. unfold HasIMUData, gets at 1.
  destruct (imu_raw_data_buff_ s) as [|x0 l0] eqn:Hbuf.
  - destruct older; [|discriminate]. destruct rest; [|discriminate].
    cbn. unfold ret. f_equal. f_equal. rewrite <- Hbuf.
    symmetry. apply set_imu_raw_data_buff__same.
  - cbn [empty negb]. unfold bind at 1, gets at 1. unfold bind at 1.
    rewrite drain_loop with (older := older) (rest := rest);
      [ | rewrite Hbuf; exact Hsplit | exact Hold | exact Hrest
        | rewrite Hbuf, Hsplit; apply Nat.le_refl ].
    unfold bind at 1, gets at 1.
    destruct rest as [|y r].
    + rewrite propagated_current_raw, propagated_current_cloud. cbn.
      assert (older <> []) as Hne.
      { intros E. rewrite E in Hsplit. discriminate. }
      assert (In (last older (current_imu_raw_data_ s)) older) as Hin.
      { clear - Hne. induction older as [|a [|b older] IH]; [congruence|left; reflexivity|].
        right. apply IH. discriminate. }
      rewrite Forall_forall in Hold. specialize (Hold _ Hin). unfold older_than in Hold.
      destruct (_ <=? _)%float eqn:E; [|reflexivity].
      apply Double.leb_not_ltb in E. fold c in E. congruence.
    + cbn. rewrite propagated_current_cloud. cbn. fold c.
      destruct (_ <=? _)%float; [|reflexivity].
      unfold modify. do 2 f_equal.
      rewrite propagated_raw_buff_of. reflexivity.
Qed.

(** *** CorrectLocalization and the end of the loop body *)

Lemma CorrectLocalization_corrected (s : t) :
  CorrectLocalization s
  = Some (fst (fst (Filtering.Correct (current_imu_synced_data_ s)
                      (current_cloud_data_ s) (laser_pose_ s) (filtering_ptr_ s))),
          corrected s).
Proof.
  destruct s. unfold CorrectLocalization, PublishLidarOdom, PublishFusionOdom, corrected,
    fused_output.
  run_flow. destruct (Filtering.Correct _ _ _ _) as [[[] pose] f']; cbn.
  - unfold set_emitted. cbn. rewrite <- !app_assoc. reflexivity.
  - unfold set_emitted. cbn. rewrite <- !app_assoc. reflexivity.
Qed.

Lemma HasIMUData_and_ValidIMUData (s : t) (x : IMUData.t) (r : list IMUData.t) :
  imu_raw_data_buff_ s = x :: r ->
  (HasIMUData &&& ValidIMUData) s
  = Some (true, set_current_imu_raw_data_ x (set_imu_raw_data_buff_ r s)).
Proof.
  intros H. destruct s. cbn in H. subst. reflexivity.
Qed.

Lemma loop_tail_propagated (s : t) :
  (more <- HasIMUData &&& ValidIMUData ;;
   if more then UpdateLocalization ;; ret tt else ret tt) s
  = Some (tt, tail_propagated s).
Proof.
  unfold tail_propagated. destruct (imu_raw_data_buff_ s) as [|x r] eqn:Hbuf.
  - destruct s. cbn in Hbuf. subst. reflexivity.
  - unfold bind at 1. rewrite (HasIMUData_and_ValidIMUData s Hbuf).
    unfold bind at 1. rewrite UpdateLocalization_step. reflexivity.
Qed.

(** *** InitLocalization *)

Lemma discard_loop (l : list IMUData.t) : forall (n : nat) (s : t),
  imu_raw_data_buff_ s = l ->
  length l <= n ->
  while n
    (HasIMUData &&&
     (x <- front_of imu_raw_data_buff_ ;;
      synced <- gets current_imu_synced_data_ ;;
      ret (IMUData.time x <? IMUData.time synced)%float))
    (pop_front_of imu_raw_data_buff_ set_imu_raw_data_buff_) s
  = Some (tt, set_imu_raw_data_buff_
                (discard_preceding (current_imu_synced_data_ s) l) s).
Proof.
  induction l as [|x l IH]; intros n s Hbuf Hn.
  - destruct s. cbn in Hbuf. subst. destruct n; reflexivity.
  - destruct n as [|n]; [cbn in Hn; lia|].
    cbn [while discard_preceding]. unfold precedes.
    unfold bind at 1, andM, bind at 1, HasIMUData, gets at 1. rewrite Hbuf. cbn [empty negb].
    unfold bind at 1, front_of. rewrite Hbuf. cbn [front hd_error].
    unfold bind at 1, gets at 1, ret at 1.
    destruct (_ <? _)%float.
    + unfold bind at 1, pop_front_of. rewrite Hbuf. cbn [pop_front].
      rewrite IH; [reflexivity | reflexivity | cbn in Hn; lia].
    + unfold ret. rewrite <- Hbuf, set_imu_raw_data_buff__same. reflexivity.
Qed.

Lemma InitLocalization_initialized (s : t) :
  InitLocalization s = Some (true, initialized s).
Proof.
  unfold InitLocalization, initialized.
  assert (forall k : M t bool,
    (init_vel <- gets (fun s => PoseData.vel (current_gnss_data_ s)) ;;
     cloud <- gets current_cloud_data_ ;;
     imu <- gets current_imu_synced_data_ ;;
     ok <- call (Filtering.Init_scan cloud init_vel imu) ;;
     emit (Call_Init_scan cloud init_vel imu ok) ;;
     (if ok then
        init_pose <- gets (fun s => Filtering.GetPose (filtering_ptr_ s)) ;;
        gnss <- gets current_gnss_data_ ;;
        let deviation := translation_distance init_pose (PoseData.pose gnss) in
        emit (Log_init_succeeded deviation)
      else
        gnss <- gets current_gnss_data_ ;;
        imu <- gets current_imu_synced_data_ ;;
        ok' <- call (Filtering.Init_pose (PoseData.pose gnss) init_vel imu) ;;
        emit (Call_Init_pose (PoseData.pose gnss) init_vel imu ok') ;;
        emit Log_init_failed) ;;
     k) s = k (seeded s)) as Hseed.
  { intros k. destruct s. unfold seeded. run_flow.
    destruct (Filtering.Init_scan _ _ _ _) as [[] f1]; cbn.
    - unfold set_emitted. cbn. rewrite <- !app_assoc. reflexivity.
    - destruct (Filtering.Init_pose _ _ _ _) as [ok' f2]; cbn.
      unfold set_emitted. cbn. rewrite <- !app_assoc. reflexivity. }
  rewrite Hseed. unfold bind at 1, gets at 1. unfold bind at 1.
  rewrite discard_loop with (l := imu_raw_data_buff_ (seeded s));
    [ | reflexivity | apply Nat.le_refl ].
  assert (imu_raw_data_buff_ (seeded s) = imu_raw_data_buff_ s
          /\ current_imu_synced_data_ (seeded s) = current_imu_synced_data_ s) as [-> ->].
  { destruct s. unfold seeded. cbn. destruct (fst _); auto. }
  reflexivity.
Qed.

(** *** The body of the outer loop *)

Lemma cycle_uninitialized (s : t) :
  inited s = false ->
  cycle s = match ValidLidarData s with
            | Some (true, s1) => Some (tt, initialized s1)
            | Some (false, s1) => Some (tt, s1)
            | None => None
            end.
Proof.
  unfold inited. intros H. unfold cycle, HasInited.
  unfold bind at 1, gets at 1. rewrite H. cbn [negb].
  unfold bind at 1. destruct (ValidLidarData s) as [[[] s1]|]; try reflexivity.
  unfold bind at 1. rewrite InitLocalization_initialized. reflexivity.
Qed.

Lemma cycle_initialized (s : t) :
  inited s = true ->
  cycle s = match (HasLidarData &&& ValidLidarData) s with
            | Some (true, s1) => Some (tt, tail_propagated (corrected (drained s1)))
            | Some (false, s1) => Some (tt, tail_propagated s1)
            | None => None
            end.
Proof.
  unfold inited. intros H. unfold cycle, HasInited.
  unfold bind at 1, gets at 1. rewrite H. cbn [negb].
  unfold bind at 1. destruct ((HasLidarData &&& ValidLidarData) s) as [[[] s1]|];
    try reflexivity.
  - unfold bind at 1. unfold bind at 1. rewrite drain_imu_raw_drained.
    unfold bind at 1. rewrite CorrectLocalization_corrected. unfold ret at 1.
    apply loop_tail_propagated.
  - unfold bind at 1, ret at 1. apply loop_tail_propagated.
Qed.

(** *** What a propagate and a correction leave alone *)

Lemma propagated_keeps {A} (proj : t -> A) :
  (forall x s, proj (propagate_step x s) = proj s) ->
  forall xs s, proj (propagated xs s) = proj s.
Proof.
  intros Hstep xs. induction xs as [|x xs IH]; intros s; [reflexivity|].
  unfold propagated in *. cbn [fold_left]. rewrite IH. apply Hstep.
Qed.

Ltac by_fields :=
  intros;
  repeat match goal with s : t |- _ => destruct s end;
  unfold propagate_step, corrected, tail_propagated, seeded, initialized, latched,
    calibration_view, init_logs, inited, lidar_buffers, buffered, fused_output;
  cbn;
  repeat match goal with
         | |- context [if ?b then _ else _] => destruct b; cbn
         end;
  rewrite ?filter_app; cbn; rewrite ?app_nil_r; try reflexivity.

Lemma propagate_step_current_synced x s :
  current_imu_synced_data_ (propagate_step x s) = current_imu_synced_data_ s.
Proof. by_fields. Qed.

Lemma propagate_step_laser_pose x s :
  laser_pose_ (propagate_step x s) = laser_pose_ s.
Proof. by_fields. Qed.

Lemma propagate_step_lidar_buffers x s :
  lidar_buffers (propagate_step x s) = lidar_buffers s.
Proof. by_fields. Qed.

Lemma propagate_step_calibration_view x s :
  calibration_view (propagate_step x s) = calibration_view s.
Proof. by_fields. Qed.

Lemma propagate_step_init_logs x s :
  init_logs (propagate_step x s) = init_logs s.
Proof. by_fields. Qed.

Lemma corrected_raw_buff s : imu_raw_data_buff_ (corrected s) = imu_raw_data_buff_ s.
Proof. by_fields. Qed.

Lemma corrected_lidar_buffers s : lidar_buffers (corrected s) = lidar_buffers s.
Proof. by_fields. Qed.

Lemma corrected_calibration_view s : calibration_view (corrected s) = calibration_view s.
Proof. by_fields. Qed.

Lemma corrected_init_logs s : init_logs (corrected s) = init_logs s.
Proof. by_fields. Qed.

Lemma drained_keeps {A} (proj : t -> A) :
  (forall b s, proj (set_imu_raw_data_buff_ b s) = proj s) ->
  (forall y s, proj (set_current_imu_raw_data_ y s) = proj s) ->
  (forall x s, proj (propagate_step x s) = proj s) ->
  forall s, proj (drained s) = proj s.
Proof.
  intros Hbuf Hcur Hstep s. unfold drained.
  destruct (after_older _ _) as [|y r].
  - rewrite (propagated_keeps proj Hstep). apply Hbuf.
  - destruct (_ <=? _)%float; rewrite ?Hbuf, Hcur, (propagated_keeps proj Hstep);
      apply Hbuf.
Qed.

Lemma drained_lidar_buffers s : lidar_buffers (drained s) = lidar_buffers s.
Proof.
  apply drained_keeps; try reflexivity. apply propagate_step_lidar_buffers.
Qed.

Lemma drained_calibration_view s : calibration_view (drained s) = calibration_view s.
Proof.
  apply drained_keeps; try reflexivity. apply propagate_step_calibration_view.
Qed.

Lemma drained_init_logs s : init_logs (drained s) = init_logs s.
Proof.
  apply drained_keeps; try reflexivity. apply propagate_step_init_logs.
Qed.

Lemma drained_current_cloud s : current_cloud_data_ (drained s) = current_cloud_data_ s.
Proof.
  apply drained_keeps; try reflexivity. apply propagate_step_current_cloud.
Qed.

Lemma drained_current_synced s :
  current_imu_synced_data_ (drained s) = current_imu_synced_data_ s.
Proof.
  apply drained_keeps; try reflexivity. apply propagate_step_current_synced.
Qed.

Lemma drained_laser_pose s : laser_pose_ (drained s) = laser_pose_ s.
Proof.
  apply drained_keeps; try reflexivity. apply propagate_step_laser_pose.
Qed.

(** The drain emits, and leaves in the filter, the propagate of the leading
    older samples. *)
Lemma drained_emitted (s : t) :
  let older := leading_older (current_cloud_data_ s) (imu_raw_data_buff_ s) in
  emitted (drained s) = emitted s ++ fst (propagate older (filtering_ptr_ s))
  /\ filtering_ptr_ (drained s) = snd (propagate older (filtering_ptr_ s)).
Proof.
  intros older. unfold drained. fold older.
  destruct (after_older _ _) as [|y r].
  - apply (propagated_emitted older (set_imu_raw_data_buff_ [] s)).
  - destruct (propagated_emitted older (set_imu_raw_data_buff_ r s)) as [He Hf].
    destruct (_ <=? _)%float; cbn; rewrite He, Hf; auto.
Qed.

(** The raw buffer after the drain: with a sample [y] that is not older than
    the cloud in front of [r], it is [r] with [y] appended when [y]'s
    timestamp is [>=] the cloud's. *)
Lemma drained_raw_buff (s : t) :
  imu_raw_data_buff_ (drained s)
  = match after_older (current_cloud_data_ s) (imu_raw_data_buff_ s) with
    | [] => []
    | y :: r =>
        if (IMUData.time y >=? CloudData.time (current_cloud_data_ s))%float
        then push_back r y
        else r
    end.
Proof.
  unfold drained. destruct (after_older _ _) as [|y r].
  - rewrite propagated_raw_buff_of. reflexivity.
  - destruct (_ <=? _)%float; cbn; [reflexivity|].
    rewrite propagated_raw_buff_of. reflexivity.
Qed.

Lemma drained_raw_length (s : t) :
  length (imu_raw_data_buff_ (drained s)) <= length (imu_raw_data_buff_ s).
Proof.
  rewrite drained_raw_buff.
  pose proof (f_equal (@length _)
                (leading_after_older (current_cloud_data_ s) (imu_raw_data_buff_ s)))
    as Hlen.
  rewrite length_app in Hlen.
  destruct (after_older _ _) as [|y r]; cbn in *; [lia|].
  destruct (_ <=? _)%float; unfold push_back; rewrite ?length_app; cbn; lia.
Qed.

(** *** Buffers in timestamp order *)

Lemma filter_none {A} (f : A -> bool) (l : list A) :
  (forall y, In y l -> f y = false) -> filter f l = [].
Proof.
  induction l as [|x l IH]; intros H; [reflexivity|].
  cbn. rewrite (H x (or_introl eq_refl)). apply IH. intros y Hy. apply H. right. exact Hy.
Qed.

Lemma filter_all {A} (f : A -> bool) (l : list A) :
  (forall y, In y l -> f y = true) -> filter f l = l.
Proof.
  induction l as [|x l IH]; intros H; [reflexivity|].
  cbn. rewrite (H x (or_introl eq_refl)). f_equal. apply IH.
  intros y Hy. apply H. right. exact Hy.
Qed.

(** In a buffer in timestamp order the leading older samples are all the
    older samples. *)
Lemma ordered_leading_older (c : CloudData.t) (l : list IMUData.t) :
  ordered (map IMUData.time l) = true ->
  leading_older c l = filter (older_than c) l.
Proof.
  induction l as [|x l IH]; intros Hord; [reflexivity|].
  cbn [leading_older filter]. destruct (older_than c x) eqn:Hx.
  - f_equal. apply IH. eapply Double.ordered_tail, Hord.
  - symmetry. apply filter_none. intros y Hy. unfold older_than in *.
    apply Double.not_ltb_mono with (IMUData.time x); [|exact Hx].
    apply (Double.ordered_head_least _ _ Hord). apply in_map. exact Hy.
Qed.

(** In a buffer in timestamp order, discarding the leading samples that
    precede [i] discards every sample that precedes [i]. *)
Lemma ordered_discard_preceding (i : IMUData.t) (l : list IMUData.t) :
  ordered (map IMUData.time l) = true ->
  discard_preceding i l = filter (fun x => negb (precedes i x)) l.
Proof.
  induction l as [|x l IH]; intros Hord; [reflexivity|].
  cbn [discard_preceding filter]. destruct (precedes i x) eqn:Hx; cbn [negb].
  - apply IH. eapply Double.ordered_tail, Hord.
  - f_equal. symmetry. apply filter_all. intros y Hy. unfold precedes in *.
    apply negb_true_iff.
    apply Double.not_ltb_mono with (IMUData.time x); [|exact Hx].
    apply (Double.ordered_head_least _ _ Hord). apply in_map. exact Hy.
Qed.

(** *** InitLocalization: seeding and discarding *)

(** C5.  InitLocalization first calls the scan-context Init with the current
    cloud, the GNSS sample's velocity and the synced IMU sample.  When that
    succeeds, the filter is as that call left it and the deviation between
    its pose and the GNSS pose appears in the log line and nowhere else.
    When it fails, the filter is seeded by the pose Init with the GNSS
    sample's pose and the same velocity and IMU sample.  Either way the call
    returns true. *)
Theorem InitLocalization_seeds (s : t) :
  let cloud := current_cloud_data_ s in
  let gnss := current_gnss_data_ s in
  let imu := current_imu_synced_data_ s in
  let init_vel := PoseData.vel gnss in
  let primary := Filtering.Init_scan cloud init_vel imu (filtering_ptr_ s) in
  let fallback := Filtering.Init_pose (PoseData.pose gnss) init_vel imu (snd primary) in
  returns InitLocalization s (fun ok s' =>
    ok = true
    /\ if fst primary
       then filtering_ptr_ s' = snd primary
            /\ emitted s'
               = emitted s
                 ++ [Call_Init_scan cloud init_vel imu true;
                     Log_init_succeeded
                       (translation_distance (Filtering.GetPose (snd primary))
                          (PoseData.pose gnss))]
       else filtering_ptr_ s' = snd fallback
            /\ emitted s'
               = emitted s
                 ++ [Call_Init_scan cloud init_vel imu false;
                     Call_Init_pose (PoseData.pose gnss) init_vel imu (fst fallback);
                     Log_init_failed]).
Proof.
  intros cloud gnss imu init_vel primary fallback.
  unfold returns. rewrite InitLocalization_initialized. split; [reflexivity|].
  unfold initialized, seeded.
  fold cloud gnss imu init_vel primary fallback.
  destruct (fst primary); cbn; auto.
Qed.

(** C6.  With the raw buffer in timestamp order and the seeding synced
    sample's timestamp a number, InitLocalization leaves in the raw buffer
    exactly the samples whose timestamp does not precede the synced
    sample's, and each of them has a timestamp [>=] it. *)
Theorem InitLocalization_discards (s : t) :
  ordered (map IMUData.time (imu_raw_data_buff_ s)) = true ->
  is_number (IMUData.time (current_imu_synced_data_ s)) = true ->
  returns InitLocalization s (fun _ s' =>
    imu_raw_data_buff_ s'
    = filter (fun x => negb (precedes (current_imu_synced_data_ s) x))
        (imu_raw_data_buff_ s)
    /\ Forall (fun x => (IMUData.time x
                         >=? IMUData.time (current_imu_synced_data_ s))%float = true)
         (imu_raw_data_buff_ s')).
Proof.
  intros Hord Hnum. unfold returns. rewrite InitLocalization_initialized.
  unfold initialized. cbn [imu_raw_data_buff_ set_imu_raw_data_buff_].
  rewrite (ordered_discard_preceding _ _ Hord). split; [reflexivity|].
  apply Forall_forall. intros x Hx. apply filter_In in Hx. destruct Hx as [Hin Hx].
  apply negb_true_iff in Hx. unfold precedes in Hx.
  apply Double.not_ltb_leb; [|exact Hnum|exact Hx].
  apply (Double.ordered_all_numbers _ Hord). apply in_map. exact Hin.
Qed.

(** *** The drain and the correction within a cycle *)

Lemma after_older_split (c : CloudData.t) (older : list IMUData.t) y r :
  Forall (fun x => older_than c x = true) older ->
  older_than c y = false ->
  after_older c (older ++ y :: r) = y :: r.
Proof.
  intros Hold Hy. induction Hold as [|x older Hx _ IH]; cbn [app after_older].
  - rewrite Hy. reflexivity.
  - rewrite Hx. exact IH.
Qed.

(** X2.  The sample that stops the drain goes to the back of the raw buffer.
    With the buffer [older ++ y :: r], where the samples of [older] are older
    than the current cloud and [y]'s timestamp is [>=] the cloud's, the drain
    returns and leaves the buffer [r ++ [y]]: [y] is kept, behind every
    sample of [r]. *)
Theorem drain_retains_at_the_back (s : t) (older : list IMUData.t) y r :
  imu_raw_data_buff_ s = older ++ y :: r ->
  Forall (fun x => older_than (current_cloud_data_ s) x = true) older ->
  (IMUData.time y >=? CloudData.time (current_cloud_data_ s))%float = true ->
  returns drain_imu_raw s (fun _ s' => imu_raw_data_buff_ s' = r ++ [y]).
Proof.
  intros Hbuf Hold Hy. unfold returns. rewrite drain_imu_raw_drained, drained_raw_buff.
  rewrite Hbuf, (after_older_split r Hold); [rewrite Hy; reflexivity|].
  unfold older_than. apply Double.leb_not_ltb. exact Hy.
Qed.

Lemma corrected_emitted (s : t) :
  exists later,
    emitted (corrected s)
    = emitted s
      ++ Call_Correct (current_imu_synced_data_ s) (current_cloud_data_ s)
           (fst (fst (Filtering.Correct (current_imu_synced_data_ s)
                        (current_cloud_data_ s) (laser_pose_ s) (filtering_ptr_ s))))
         :: later.
Proof.
  destruct s. unfold corrected. cbn.
  destruct (fst (fst (Filtering.Correct _ _ _ _))); cbn; eexists; reflexivity.
Qed.

Lemma tail_propagated_emitted (s : t) :
  emitted (tail_propagated s)
  = emitted s
    ++ match imu_raw_data_buff_ s with
       | [] => []
       | x :: _ =>
           Call_Update x (fst (Filtering.Update x (filtering_ptr_ s)))
           :: (if fst (Filtering.Update x (filtering_ptr_ s))
               then fused_output x (snd (Filtering.Update x (filtering_ptr_ s)))
               else [])
       end.
Proof.
  destruct s as [raw ? ? ? ? ? ? ? ? ? ? ? ? ? ?]. unfold tail_propagated. cbn.
  destruct raw as [|x r]; cbn; [rewrite app_nil_r; reflexivity|].
  unfold propagate_step. cbn. destruct (fst (Filtering.Update x _)); reflexivity.
Qed.

Lemma HasLidarData_and_ValidLidarData (s : t) c cs g gs i is_ :
  cloud_data_buff_ s = c :: cs ->
  gnss_data_buff_ s = g :: gs ->
  imu_synced_data_buff_ s = i :: is_ ->
  (HasLidarData &&& ValidLidarData) s = ValidLidarData s.
Proof.
  intros Hc Hg Hi. unfold andM, bind, HasLidarData, gets.
  rewrite Hc, Hg, Hi. reflexivity.
Qed.

(** X1.  In an initialized cycle that consumes an aligned triple, with the
    raw buffer in timestamp order: the cycle first makes one propagate for every buffered raw sample older than the
    cloud, in buffer order, with a fused output after each one that
    succeeded, and then calls Correct with the triple's synced sample and
    cloud on the filter so propagated. *)
Theorem cycle_propagates_older_first (s : t) c cs g gs i is_ :
  inited s = true ->
  cloud_data_buff_ s = c :: cs ->
  gnss_data_buff_ s = g :: gs ->
  imu_synced_data_buff_ s = i :: is_ ->
  within_tolerance (CloudData.time c) (PoseData.time g) = true ->
  within_tolerance (CloudData.time c) (IMUData.time i) = true ->
  ordered (map IMUData.time (imu_raw_data_buff_ s)) = true ->
  let older := filter (older_than c) (imu_raw_data_buff_ s) in
  let f := snd (propagate older (filtering_ptr_ s)) in
  returns cycle s (fun _ s' =>
    exists later,
      emitted s'
      = emitted s ++ fst (propagate older (filtering_ptr_ s))
        ++ Call_Correct i c (fst (fst (Filtering.Correct i c (laser_pose_ s) f)))
           :: later).
Proof.
  intros Hin Hc Hg Hi Wg Wi Hord older f. unfold returns.
  rewrite (cycle_initialized s Hin), (HasLidarData_and_ValidLidarData s Hc Hg Hi),
    (ValidLidarData_outcome s Hc Hg Hi).
  destruct (within_tolerance_passes Wg Wi) as (-> & -> & ->).
  set (s1 := set_imu_synced_data_buff_ _ _).
  rewrite tail_propagated_emitted.
  destruct (corrected_emitted (drained s1)) as [later ->].
  destruct (drained_emitted s1) as [He Hf].
  rewrite He, Hf, drained_current_synced, drained_current_cloud, drained_laser_pose.
  assert (imu_raw_data_buff_ s1 = imu_raw_data_buff_ s
          /\ current_cloud_data_ s1 = c /\ current_imu_synced_data_ s1 = i
          /\ laser_pose_ s1 = laser_pose_ s /\ filtering_ptr_ s1 = filtering_ptr_ s
          /\ emitted s1 = emitted s) as (-> & -> & -> & -> & -> & ->).
  { destruct s. cbn. auto 10. }
  rewrite (ordered_leading_older c _ Hord). fold older f.
  eexists. rewrite <- !app_assoc. cbn [app]. reflexivity.
Qed.

Lemma corrected_sent (s : t) :
  let r := Filtering.Correct (current_imu_synced_data_ s) (current_cloud_data_ s)
             (laser_pose_ s) (filtering_ptr_ s) in
  emitted (corrected s)
  = emitted s
    ++ [Call_Correct (current_imu_synced_data_ s) (current_cloud_data_ s) (fst (fst r));
        Publish_laser_odom (snd (fst r)) (CloudData.time (current_cloud_data_ s));
        Publish_current_scan (Filtering.GetCurrentScan (snd r))]
    ++ (if fst (fst r) then fused_output (current_imu_raw_data_ s) (snd r) else []).
Proof.
  destruct s. unfold corrected. cbn.
  destruct (fst (fst (Filtering.Correct _ _ _ _))); reflexivity.
Qed.

Lemma propagate_app (xs ys : list IMUData.t) (f : Filtering.t) :
  fst (propagate (xs ++ ys) f)
  = fst (propagate xs f) ++ fst (propagate ys (snd (propagate xs f)))
  /\ snd (propagate (xs ++ ys) f) = snd (propagate ys (snd (propagate xs f))).
Proof.
  revert f. induction xs as [|x xs IH]; intros f; [auto|].
  cbn [app propagate fst snd].
  destruct (IH (snd (Filtering.Update x f))) as [-> ->].
  rewrite <- app_assoc. auto.
Qed.

(** What a run of propagates emits is read off the filter's trajectory. *)
Lemma propagate_trajectory (xs : list IMUData.t) (f f' : Filtering.t) :
  Filtering.trajectory xs f = Filtering.trajectory xs f' ->
  fst (propagate xs f) = fst (propagate xs f').
Proof.
  revert f f'. induction xs as [|x xs IH]; intros f f' H; [reflexivity|].
  cbn [Filtering.trajectory] in H. inversion H as [[Hok Hodo Hrest]].
  cbn [propagate fst]. unfold fused_output.
  rewrite Hok, Hodo, (IH _ _ Hrest). reflexivity.
Qed.

(** The last statement of the loop body as a propagate of at most one
    sample. *)
Lemma tail_propagated_trace (s : t) :
  emitted (tail_propagated s)
  = emitted s ++ fst (propagate (firstn 1 (imu_raw_data_buff_ s)) (filtering_ptr_ s))
  /\ filtering_ptr_ (tail_propagated s)
     = snd (propagate (firstn 1 (imu_raw_data_buff_ s)) (filtering_ptr_ s)).
Proof.
  unfold tail_propagated. destruct (imu_raw_data_buff_ s) as [|x r].
  - cbn. rewrite app_nil_r. auto.
  - change (propagate_step x (set_imu_raw_data_buff_ r s))
      with (propagated [x] (set_imu_raw_data_buff_ r s)).
    destruct (propagated_emitted [x] (set_imu_raw_data_buff_ r s)) as [-> ->].
    destruct s. cbn [firstn emitted filtering_ptr_ set_imu_raw_data_buff_]. auto.
Qed.

(** C8.  CorrectLocalization sends the laser pose and the current scan
    whatever Correct returned, and the fused output only when it returned
    true; it returns that result.  The loop body ignores the result: an
    initialized cycle that consumed an aligned triple goes on to its last
    statement, which takes the next raw sample, if there is one, updates the
    filter as the correction left it and sends the fused output of that
    update when it succeeded.  When Correct returned false, on a filter
    whose rejected correction keeps the propagated trajectory
    ([Filtering.rejection]), the fused output goes on from the propagated
    state: after the Correct call, the laser pose and the scan, what the
    cycle's last statement emits and what every later run [xs] of
    propagates emits (the verdict of each Update and the fused pose and
    velocity sent after it) is what propagating the same samples from the
    filter as the drain left it, before the correction, emits. *)
Theorem CorrectLocalization_publishes (s : t) :
  let r := Filtering.Correct (current_imu_synced_data_ s) (current_cloud_data_ s)
             (laser_pose_ s) (filtering_ptr_ s) in
  let ok := fst (fst r) in
  returns CorrectLocalization s (fun b s' =>
    b = ok
    /\ filtering_ptr_ s' = snd r
    /\ emitted s'
       = emitted s
         ++ [Call_Correct (current_imu_synced_data_ s) (current_cloud_data_ s) ok;
             Publish_laser_odom (snd (fst r)) (CloudData.time (current_cloud_data_ s));
             Publish_current_scan (Filtering.GetCurrentScan (snd r))]
         ++ (if ok then fused_output (current_imu_raw_data_ s) (snd r) else []))
  /\ (forall s0 s1,
        inited s0 = true ->
        (HasLidarData &&& ValidLidarData) s0 = Some (true, s1) ->
        drained s1 = s ->
        returns cycle s0 (fun _ s' =>
          s' = tail_propagated (corrected s)
          /\ emitted s'
             = emitted (corrected s)
               ++ match imu_raw_data_buff_ s with
                  | [] => []
                  | x :: _ =>
                      Call_Update x (fst (Filtering.Update x (snd r)))
                      :: (if fst (Filtering.Update x (snd r))
                          then fused_output x (snd (Filtering.Update x (snd r)))
                          else [])
                  end))
  /\ (Filtering.rejection ->
      ok = false ->
      forall s0 s1,
        inited s0 = true ->
        (HasLidarData &&& ValidLidarData) s0 = Some (true, s1) ->
        drained s1 = s ->
        returns cycle s0 (fun _ s' =>
          forall xs,
            emitted (propagated xs s')
            = emitted s
              ++ [Call_Correct (current_imu_synced_data_ s) (current_cloud_data_ s) false;
                  Publish_laser_odom (snd (fst r))
                    (CloudData.time (current_cloud_data_ s));
                  Publish_current_scan (Filtering.GetCurrentScan (snd r))]
              ++ fst (propagate (firstn 1 (imu_raw_data_buff_ s) ++ xs)
                        (filtering_ptr_ s)))).
Proof.
  intros r ok.
  assert (filtering_ptr_ (corrected s) = snd r) as Hf.
  { destruct s. unfold corrected. cbn in *. fold r. destruct (fst (fst r)); reflexivity. }
  split; [|split].
  - unfold returns. rewrite CorrectLocalization_corrected. fold r ok.
    split; [reflexivity|]. destruct s. unfold corrected. cbn in *. fold r ok.
    destruct ok; cbn; auto.
  - intros s0 s1 Hin Hal Hs. unfold returns.
    rewrite (cycle_initialized s0 Hin), Hal, Hs. split; [reflexivity|].
    rewrite tail_propagated_emitted, corrected_raw_buff, Hf.
    reflexivity.
  - intros Hrej Hok s0 s1 Hin Hal Hs. unfold returns.
    rewrite (cycle_initialized s0 Hin), Hal, Hs. intros xs.
    destruct (propagated_emitted xs (tail_propagated (corrected s))) as [-> _].
    destruct (tail_propagated_trace (corrected s)) as [-> ->].
    rewrite corrected_raw_buff, Hf, corrected_sent. fold r ok. rewrite Hok.
    set (next := firstn 1 (imu_raw_data_buff_ s)).
    destruct (propagate_app next xs (snd r)) as [Happ _].
    rewrite <- !app_assoc, <- Happ, app_nil_l.
    rewrite (propagate_trajectory (next ++ xs) (snd r) (filtering_ptr_ s)
               (Filtering.Correct_rejected _ _ _ _ Hok (next ++ xs))).
    reflexivity.
Qed.

(** *** Run returns *)

(** ValidLidarData is stuck exactly when one of the three buffers is empty. *)
Lemma ValidLidarData_fronts (s s1 : t) (b : bool) :
  ValidLidarData s = Some (b, s1) ->
  exists c cs g gs i is_,
    cloud_data_buff_ s = c :: cs /\ gnss_data_buff_ s = g :: gs
    /\ imu_synced_data_buff_ s = i :: is_.
Proof.
  destruct s as [raw clouds poses synced ? ? ? ? ? ? ? ? ? ? ?].
  destruct clouds as [|c cs]; [discriminate|].
  destruct poses as [|g gs]; [discriminate|].
  destruct synced as [|i is_]; [discriminate|].
  intros _. exists c, cs, g, gs, i, is_. auto.
Qed.

Lemma ValidLidarData_returns (s : t) c cs g gs i is_ :
  cloud_data_buff_ s = c :: cs ->
  gnss_data_buff_ s = g :: gs ->
  imu_synced_data_buff_ s = i :: is_ ->
  exists b s1, ValidLidarData s = Some (b, s1).
Proof.
  intros Hc Hg Hi. rewrite (ValidLidarData_outcome s Hc Hg Hi).
  destruct (_ || _); [eauto|]. destruct (companion_behind _ _); [eauto|].
  destruct (companion_behind _ _); eauto.
Qed.

(** ValidLidarData touches the three aligned buffers and the current triple
    only, and takes at least one sample out. *)
Lemma ValidLidarData_effect (s s1 : t) (b : bool) :
  ValidLidarData s = Some (b, s1) ->
  imu_raw_data_buff_ s1 = imu_raw_data_buff_ s
  /\ filtering_ptr_ s1 = filtering_ptr_ s
  /\ emitted s1 = emitted s
  /\ calibration_view s1 = calibration_view s
  /\ buffered s1 < buffered s.
Proof.
  intros E. destruct (ValidLidarData_fronts _ E) as (c & cs & g & gs & i & is_ & Hc & Hg & Hi).
  rewrite (ValidLidarData_outcome s Hc Hg Hi) in E.
  destruct (_ || _);
    [|destruct (companion_behind _ _); [|destruct (companion_behind _ _)]];
    inversion E; subst b s1; unfold buffered, calibration_view, latched;
    cbn [imu_raw_data_buff_ cloud_data_buff_ gnss_data_buff_ imu_synced_data_buff_
         filtering_ptr_ emitted calibration_received lidar_to_imu_
         set_cloud_data_buff_ set_gnss_data_buff_ set_imu_synced_data_buff_
         set_current_cloud_data_ set_current_gnss_data_ set_current_imu_synced_data_];
    rewrite Hc, Hg, Hi; cbn [length]; repeat split; lia.
Qed.

Lemma buffered_le (s s' : t) :
  lidar_buffers s' = lidar_buffers s ->
  length (imu_raw_data_buff_ s') <= length (imu_raw_data_buff_ s) ->
  buffered s' <= buffered s.
Proof.
  unfold lidar_buffers, buffered. intros E Hle. inversion E as [[Ec Eg Ei]].
  rewrite Ec, Eg, Ei. lia.
Qed.

Lemma tail_propagated_lidar_buffers s :
  lidar_buffers (tail_propagated s) = lidar_buffers s.
Proof.
  unfold tail_propagated. destruct (imu_raw_data_buff_ s); [reflexivity|].
  rewrite propagate_step_lidar_buffers. reflexivity.
Qed.

Lemma tail_propagated_calibration_view s :
  calibration_view (tail_propagated s) = calibration_view s.
Proof.
  unfold tail_propagated. destruct (imu_raw_data_buff_ s); [reflexivity|].
  rewrite propagate_step_calibration_view. reflexivity.
Qed.

Lemma tail_propagated_init_logs s : init_logs (tail_propagated s) = init_logs s.
Proof.
  unfold tail_propagated. destruct (imu_raw_data_buff_ s); [reflexivity|].
  rewrite propagate_step_init_logs. reflexivity.
Qed.

Lemma tail_propagated_raw_buff s :
  imu_raw_data_buff_ (tail_propagated s) = tl (imu_raw_data_buff_ s).
Proof.
  unfold tail_propagated. destruct (imu_raw_data_buff_ s) eqn:E; [exact E|].
  rewrite propagate_step_raw_buff_of. reflexivity.
Qed.

Lemma tail_propagated_buffered s : buffered (tail_propagated s) <= buffered s.
Proof.
  apply buffered_le; [apply tail_propagated_lidar_buffers|].
  rewrite tail_propagated_raw_buff. destruct (imu_raw_data_buff_ s); cbn; lia.
Qed.

Lemma corrected_buffered s : buffered (corrected s) <= buffered s.
Proof.
  apply buffered_le; [apply corrected_lidar_buffers|].
  rewrite corrected_raw_buff. apply Nat.le_refl.
Qed.

Lemma drained_buffered s : buffered (drained s) <= buffered s.
Proof.
  apply buffered_le; [apply drained_lidar_buffers | apply drained_raw_length].
Qed.

Lemma discard_preceding_length i l : length (discard_preceding i l) <= length l.
Proof.
  induction l as [|x l IH]; cbn [discard_preceding]; [apply Nat.le_refl|].
  destruct (precedes i x); cbn; lia.
Qed.

Lemma initialized_lidar_buffers s : lidar_buffers (initialized s) = lidar_buffers s.
Proof.
  destruct s. unfold initialized, seeded, lidar_buffers. cbn [current_gnss_data_
    current_cloud_data_ current_imu_synced_data_ filtering_ptr_ emitted].
  destruct (fst (Filtering.Init_scan _ _ _ _)); reflexivity.
Qed.

Lemma initialized_calibration_view s :
  calibration_view (initialized s) = calibration_view s.
Proof.
  destruct s. unfold initialized, seeded, calibration_view. cbn [current_gnss_data_
    current_cloud_data_ current_imu_synced_data_ filtering_ptr_ emitted].
  destruct (fst (Filtering.Init_scan _ _ _ _)); cbn; rewrite filter_app, app_nil_r;
    reflexivity.
Qed.

Lemma initialized_buffered s : buffered (initialized s) <= buffered s.
Proof.
  apply buffered_le; [apply initialized_lidar_buffers|].
  unfold initialized. cbn. apply discard_preceding_length.
Qed.

(** HasData reads, and changes nothing. *)
Lemma HasData_reads (s : t) : exists b, HasData s = Some (b, s).
Proof.
  unfold HasData, HasInited. run_flow.
  destruct (negb _); destruct (_ || _); try destruct (_ && _); eexists; reflexivity.
Qed.

(** The body of the outer loop, entered with data: it returns, with fewer
    samples buffered and the calibration as it was. *)
Lemma cycle_progress (s : t) :
  HasData s = Some (true, s) ->
  returns cycle s (fun _ s' =>
    buffered s' < buffered s /\ calibration_view s' = calibration_view s).
Proof.
  intros Hdata. unfold returns. destruct (inited s) eqn:Hin.
  - rewrite (cycle_initialized s Hin).
    destruct (cloud_data_buff_ s) as [|c cs] eqn:Hc;
      [|destruct (gnss_data_buff_ s) as [|g gs] eqn:Hg;
        [|destruct (imu_synced_data_buff_ s) as [|i is_] eqn:Hi]].
    4: { rewrite (HasLidarData_and_ValidLidarData s Hc Hg Hi).
         destruct (ValidLidarData s) as [[b s1]|] eqn:E.
         2: { destruct (ValidLidarData_returns s Hc Hg Hi) as (b & s1 & E').
              congruence. }
         apply ValidLidarData_effect in E. destruct E as (_ & _ & _ & Hv & Hlt).
         destruct b.
         - split.
           + eapply Nat.le_lt_trans; [apply tail_propagated_buffered|].
             eapply Nat.le_lt_trans; [apply corrected_buffered|].
             eapply Nat.le_lt_trans; [apply drained_buffered|]. exact Hlt.
           + rewrite tail_propagated_calibration_view, corrected_calibration_view,
               drained_calibration_view. exact Hv.
         - split.
           + eapply Nat.le_lt_trans; [apply tail_propagated_buffered | exact Hlt].
           + rewrite tail_propagated_calibration_view. exact Hv. }
    all: assert ((HasLidarData &&& ValidLidarData) s = Some (false, s)) as ->
        by (unfold andM, bind, HasLidarData, gets; rewrite ?Hc, ?Hg, ?Hi; cbn;
            rewrite ?andb_false_r; reflexivity).
    all: split; [|apply tail_propagated_calibration_view].
    all: assert (imu_raw_data_buff_ s <> []) as Hraw
        by (intros Hraw; revert Hdata; unfold HasData, HasInited; run_flow;
            unfold inited in Hin; rewrite Hin, Hraw, ?Hc, ?Hg, ?Hi; cbn;
            rewrite ?orb_true_r; discriminate).
    all: unfold buffered;
      pose proof (tail_propagated_lidar_buffers s) as Hl;
      unfold lidar_buffers in Hl; inversion Hl as [[Ec Eg Ei]];
      rewrite tail_propagated_raw_buff, Ec, Eg, Ei;
      destruct (imu_raw_data_buff_ s); [congruence|cbn; lia].
  - rewrite (cycle_uninitialized s Hin).
    destruct (ValidLidarData s) as [[b s1]|] eqn:E.
    + apply ValidLidarData_effect in E. destruct E as (_ & _ & _ & Hv & Hlt).
      destruct b.
      * split; [eapply Nat.le_lt_trans; [apply initialized_buffered | exact Hlt]|].
        rewrite initialized_calibration_view. exact Hv.
      * auto.
    + revert Hdata. unfold HasData, HasInited. run_flow.
      unfold inited in Hin. rewrite Hin. cbn.
      destruct (cloud_data_buff_ s) as [|c cs] eqn:Hc; [discriminate|].
      destruct (gnss_data_buff_ s) as [|g gs] eqn:Hg; [discriminate|].
      destruct (imu_synced_data_buff_ s) as [|i is_] eqn:Hi; [discriminate|].
      destruct (ValidLidarData_returns s Hc Hg Hi) as (b & s1 & E').
      congruence.
Qed.

Lemma returns_seq {S A B} (m : M S A) (k : A -> M S B) (s : S)
    (Q1 : A -> S -> Prop) (Q : B -> S -> Prop) :
  returns m s Q1 ->
  (forall a s', Q1 a s' -> returns (k a) s' Q) ->
  returns (bind m k) s Q.
Proof.
  intros H1 H2. apply returns_bind. eapply returns_weaken; [|exact H1]. exact H2.
Qed.

(** The outer loop with the fuel Run gives it: it returns, with no data left,
    and keeps every invariant of the loop body. *)
Lemma outer_loop_returns (I : t -> Prop) :
  (forall s, I s -> HasData s = Some (true, s) ->
     returns cycle s (fun _ s' => I s' /\ buffered s' < buffered s)) ->
  forall s, I s ->
    returns (while (buffered s) HasData cycle) s
      (fun _ s' => I s' /\ HasData s' = Some (false, s')).
Proof.
  intros Hbody s Hs.
  apply while_returns with (I := I) (mu := buffered); [|exact Hs|apply Nat.le_refl].
  intros s0 Hs0. unfold returns at 1.
  destruct (HasData_reads s0) as [b Hb]. rewrite Hb. destruct b.
  - apply Hbody; assumption.
  - auto.
Qed.

(** The statements of Run between the calibration gate and the loop. *)
Lemma PublishGlobalMap_effect (b : bool) (s : t) :
  returns (PublishGlobalMap b) s (fun _ s' =>
    calibration_view s' = calibration_view s
    /\ init_logs s' = init_logs s
    /\ (filtering_ptr_ s' = filtering_ptr_ s
        \/ filtering_ptr_ s' = snd (Filtering.GetGlobalMap (filtering_ptr_ s)))).
Proof.
  destruct s. unfold returns, PublishGlobalMap, calibration_view, init_logs. run_flow.
  destruct (_ && _); cbn; [|auto].
  destruct (Filtering.GetGlobalMap _) as [m f'] eqn:E. cbn.
  rewrite !filter_app, !app_nil_r. auto.
Qed.

Lemma PublishLocalMap_effect (b : bool) (s : t) :
  returns (PublishLocalMap b) s (fun _ s' =>
    calibration_view s' = calibration_view s
    /\ init_logs s' = init_logs s
    /\ filtering_ptr_ s' = filtering_ptr_ s).
Proof.
  destruct s. unfold returns, PublishLocalMap, calibration_view, init_logs. run_flow.
  destruct (_ && _); cbn; [|auto].
  rewrite !filter_app, !app_nil_r. auto.
Qed.

Lemma ReadData_effect (tick : Tick) (s : t) :
  returns (ReadData tick) s (fun _ s' =>
    calibration_view s' = calibration_view s
    /\ init_logs s' = init_logs s
    /\ filtering_ptr_ s' = filtering_ptr_ s).
Proof.
  destruct s. unfold returns, ReadData, calibration_view, init_logs. run_flow. auto.
Qed.

(** Past the gate, Run returns true with no data left, and keeps every
    invariant [I] that its statements keep. *)
Lemma Run_past_the_gate (I : t -> Prop) (tick : Tick) (s : t) :
  (forall b s, I s -> returns (PublishGlobalMap b) s (fun _ s' => I s')) ->
  (forall b s, I s -> returns (PublishLocalMap b) s (fun _ s' => I s')) ->
  (forall s, I s -> returns (ReadData tick) s (fun _ s' => I s')) ->
  (forall s, I s -> HasData s = Some (true, s) ->
     returns cycle s (fun _ s' => I s' /\ buffered s' < buffered s)) ->
  I s ->
  returns
    (PublishGlobalMap (global_map_has_subscribers tick) ;;
     PublishLocalMap (local_map_has_subscribers tick) ;;
     ReadData tick ;;
     n <- gets buffered ;;
     while n HasData cycle ;;
     ret true) s
    (fun b s' => b = true /\ I s' /\ HasData s' = Some (false, s')).
Proof.
  intros Hg Hl Hr Hc Hs.
  eapply returns_seq; [apply Hg, Hs|]. intros b1 s1 H1.
  eapply returns_seq; [apply Hl, H1|]. intros b2 s2 H2.
  eapply returns_seq; [apply Hr, H2|]. intros b3 s3 H3.
  apply returns_bind. unfold returns at 1, gets.
  eapply returns_seq; [apply (outer_loop_returns I Hc), H3|].
  intros u s4 [H4 Hd]. unfold returns, ret. auto.
Qed.

(** X4.  Before initialization nothing reorders the raw buffer.  A cycle of an
    uninitialized flow either leaves the raw buffer as it is, or accepts a
    triple and calls InitLocalization on a flow whose raw buffer is still the
    one the cycle started with: the raw buffer that InitLocalization finds
    holds the raw samples in the order in which ReadData appended them. *)
Theorem uninitialized_cycle_keeps_raw_buffer (s : t) :
  HasData s = Some (true, s) ->
  inited s = false ->
  returns cycle s (fun _ s' =>
    imu_raw_data_buff_ s' = imu_raw_data_buff_ s
    \/ exists s1, ValidLidarData s = Some (true, s1)
                  /\ imu_raw_data_buff_ s1 = imu_raw_data_buff_ s
                  /\ s' = initialized s1).
Proof.
  intros Hd Hin. pose proof (cycle_progress Hd) as Hp. unfold returns in *.
  rewrite (cycle_uninitialized s Hin) in *.
  destruct (ValidLidarData s) as [[b s1]|] eqn:Ev; [|contradiction].
  pose proof (ValidLidarData_effect _ Ev) as (Hraw & _).
  destruct b; [right; exists s1; auto | left; exact Hraw].
Qed.

(** *** The calibration gate *)

Lemma InitCalibration_received (lookup : option Matrix4f) (s : t) :
  calibration_received s = true ->
  InitCalibration lookup s = Some (true, s).
Proof.
  intros H. unfold InitCalibration. run_flow. rewrite H. cbn. rewrite H. reflexivity.
Qed.

Lemma InitCalibration_unavailable (s : t) :
  calibration_received s = false ->
  InitCalibration None s
  = Some (false, set_emitted (emitted s ++ [LookupData false]) s).
Proof.
  intros H. unfold InitCalibration. run_flow. rewrite H. cbn. rewrite H. reflexivity.
Qed.

Lemma InitCalibration_resolved (transform : Matrix4f) (s : t) :
  calibration_received s = false ->
  InitCalibration (Some transform) s
  = Some (true, set_calibration_received true
                  (set_lidar_to_imu_ transform
                     (set_emitted (emitted s ++ [LookupData true]) s))).
Proof.
  intros H. unfold InitCalibration. run_flow. rewrite H. reflexivity.
Qed.

(** Past the gate Run returns true and leaves the calibration as it found
    it there. *)
Lemma Run_keeps_calibration (tick : Tick) (s : t) :
  returns
    (PublishGlobalMap (global_map_has_subscribers tick) ;;
     PublishLocalMap (local_map_has_subscribers tick) ;;
     ReadData tick ;;
     n <- gets buffered ;;
     while n HasData cycle ;;
     ret true) s
    (fun b s' => b = true /\ calibration_view s' = calibration_view s
                 /\ HasData s' = Some (false, s')).
Proof.
  apply (Run_past_the_gate (fun s' => calibration_view s' = calibration_view s)).
  - intros b s1 H1. eapply returns_weaken; [|apply PublishGlobalMap_effect].
    cbn. intros _ s2 (E & _). congruence.
  - intros b s1 H1. eapply returns_weaken; [|apply PublishLocalMap_effect].
    cbn. intros _ s2 (E & _). congruence.
  - intros s1 H1. eapply returns_weaken; [|apply ReadData_effect].
    cbn. intros _ s2 (E & _). congruence.
  - intros s1 H1 Hd. eapply returns_weaken; [|apply (cycle_progress Hd)].
    cbn. intros _ s2 (Hlt & E). split; [congruence|exact Hlt].
  - reflexivity.
Qed.

(** C9.  With the calibration not yet received:
    - while the lookup finds nothing, Run returns false, and all it has done
      is that lookup: nothing is published, no buffer is read or drained;
    - when the lookup finds the transform, Run caches it, sets the flag and
      passes the gate.
    With the calibration received, Run makes no lookup, leaves the cached
    transform and the flag as they are and returns true; so it is after any
    number of further calls. *)
Theorem InitCalibration_gates_Run (tick : Tick) (s : t) :
  (calibration_received s = false -> tf_lookup tick = None ->
   Run tick s = Some (false, set_emitted (emitted s ++ [LookupData false]) s))
  /\ (calibration_received s = false ->
      forall transform, tf_lookup tick = Some transform ->
      returns (Run tick) s (fun b s' =>
        b = true
        /\ calibration_view s'
           = (true, transform, filter is_lookup (emitted s) ++ [LookupData true])))
  /\ (calibration_received s = true ->
      returns (Run tick) s (fun b s' =>
        b = true /\ calibration_view s' = calibration_view s))
  /\ (calibration_received s = true ->
      forall ticks,
      returns (Runs ticks) s (fun _ s' => calibration_view s' = calibration_view s)).
Proof.
  assert (forall tk s0, calibration_received s0 = true ->
            returns (Run tk) s0 (fun b s' =>
              b = true /\ calibration_view s' = calibration_view s0)) as Hlater.
  { intros tk s0 H. unfold Run. apply returns_bind. unfold returns at 1.
    rewrite (InitCalibration_received _ s0 H). cbn [negb].
    eapply returns_weaken; [|apply Run_keeps_calibration].
    cbn. intros b s' (Hb & Hv & _). auto. }
  repeat split.
  - intros H Hnone. unfold Run. rewrite Hnone. unfold bind at 1.
    rewrite (InitCalibration_unavailable s H). reflexivity.
  - intros H transform Hsome. unfold Run. rewrite Hsome.
    apply returns_bind. unfold returns at 1.
    rewrite (InitCalibration_resolved transform s H). cbn [negb].
    eapply returns_weaken; [|apply Run_keeps_calibration].
    cbn. intros b s' (Hb & Hv & _). split; [exact Hb|]. rewrite Hv.
    destruct s. unfold calibration_view. cbn. rewrite filter_app. reflexivity.
  - apply Hlater.
  - intros H ticks. revert s H. induction ticks as [|tk ticks IH]; intros s H.
    + reflexivity.
    + cbn [Runs]. eapply returns_seq; [apply (Hlater tk s H)|].
      cbn. intros b s1 (_ & Hv). rewrite <- Hv. apply IH.
      unfold calibration_view in Hv. inversion Hv. congruence.
Qed.

Lemma calibration_view_flag (s s' : t) :
  calibration_view s' = calibration_view s ->
  calibration_received s' = calibration_received s.
Proof.
  unfold calibration_view. intros E. inversion E. reflexivity.
Qed.

(** X3.  Run always returns: no [front] or [pop_front] meets an empty deque
    and both loops end.  It returns the calibration flag, and when that is
    true the outer loop has run until HasData is false. *)
Theorem Run_returns (tick : Tick) (s : t) :
  returns (Run tick) s (fun b s' =>
    b = calibration_received s'
    /\ (b = true -> HasData s' = Some (false, s'))).
Proof.
  unfold Run. apply returns_bind. unfold returns at 1.
  destruct (calibration_received s) eqn:H.
  - rewrite (InitCalibration_received _ s H). cbn [negb].
    eapply returns_weaken; [|apply Run_keeps_calibration].
    intros b s' (Hb & Hv & Hd). apply calibration_view_flag in Hv.
    split; [congruence|intros _; exact Hd].
  - destruct (tf_lookup tick) as [transform|].
    + rewrite (InitCalibration_resolved transform s H). cbn [negb].
      eapply returns_weaken; [|apply Run_keeps_calibration].
      intros b s' (Hb & Hv & Hd). apply calibration_view_flag in Hv.
      split; [|intros _; exact Hd]. rewrite Hv, Hb. reflexivity.
    + rewrite (InitCalibration_unavailable s H). cbn [negb].
      unfold returns, ret. split; [|discriminate]. symmetry. exact H.
Qed.

(** *** What the timestamp tests do not see *)

Lemma unordered_cases (a b : float) :
  unordered a b = true -> is_number a = false \/ is_number b = false.
Proof.
  unfold unordered. intros H. apply orb_true_iff in H.
  destruct H as [H|H]; apply negb_true_iff in H; auto.
Qed.

(** Between unordered timestamps neither test of ValidLidarData fires. *)
Lemma unordered_passes (a b : float) :
  unordered a b = true -> companion_ahead a b = false /\ companion_behind a b = false.
Proof.
  intros H. apply unordered_cases in H. apply Double.not_number_sub in H.
  unfold companion_ahead, companion_behind.
  split; [apply Double.not_number_ltb_l | apply Double.not_number_ltb_r]; exact H.
Qed.

(** X5.  ValidLidarData does not look at the filter: [diff_filter_time] is
    computed and never used.  With any other filter in the flow the call
    returns the same verdict and removes the same fronts; a triple older than
    the filter's clock is accepted like any other. *)
Theorem ValidLidarData_ignores_filter (f : Filtering.t) (s : t) :
  ValidLidarData (set_filtering_ptr_ f s)
  = match ValidLidarData s with
    | Some (valid, s') => Some (valid, set_filtering_ptr_ f s')
    | None => None
    end.
Proof.
  destruct s as [raw clouds poses synced ? ? ? ? ? ? ? ? ? ? ?].
  destruct clouds as [|c cs]; [reflexivity|].
  destruct poses as [|g gs]; [reflexivity|].
  destruct synced as [|i is_]; [reflexivity|].
  unfold ValidLidarData. run_flow.
  destruct (_ || _); [reflexivity|].
  destruct (_ <? _)%float; [reflexivity|].
  destruct (_ <? _)%float; reflexivity.
Qed.

(** X6.  A timestamp that is not a number passes the tolerance test.  When
    each companion front is either within the tolerance of the cloud front or
    unordered with it (its timestamp or the cloud's is not a number),
    ValidLidarData returns true and removes the three fronts. *)
Theorem ValidLidarData_accepts_unordered (s : t) c cs g gs i is_ :
  cloud_data_buff_ s = c :: cs ->
  gnss_data_buff_ s = g :: gs ->
  imu_synced_data_buff_ s = i :: is_ ->
  within_tolerance (CloudData.time c) (PoseData.time g) = true
  \/ unordered (CloudData.time c) (PoseData.time g) = true ->
  within_tolerance (CloudData.time c) (IMUData.time i) = true
  \/ unordered (CloudData.time c) (IMUData.time i) = true ->
  ValidLidarData s
  = Some (true, set_imu_synced_data_buff_ is_
                  (set_gnss_data_buff_ gs
                     (set_cloud_data_buff_ cs (latched c g i s)))).
Proof.
  intros Hc Hg Hi Wg Wi.
  rewrite (ValidLidarData_outcome s Hc Hg Hi).
  assert (forall a b, within_tolerance a b = true \/ unordered a b = true ->
            companion_ahead a b = false /\ companion_behind a b = false) as Hpass.
  { intros a b [H|H]; [|apply unordered_passes, H].
    apply Double.within_tolerance_bounds in H. exact H. }
  destruct (Hpass _ _ Wg) as [-> ->], (Hpass _ _ Wi) as [-> ->]. reflexivity.
Qed.

Lemma leading_older_split (c : CloudData.t) (older : list IMUData.t) y r :
  Forall (fun x => older_than c x = true) older ->
  older_than c y = false ->
  leading_older c (older ++ y :: r) = older.
Proof.
  intros Hold Hy. induction Hold as [|x older Hx _ IH]; cbn [app leading_older].
  - rewrite Hy. reflexivity.
  - rewrite Hx, IH. reflexivity.
Qed.

(** X7.  The drain loses a sample that it cannot compare.  With the buffer
    [older ++ y :: r], where the samples of [older] are older than the
    current cloud and [y]'s timestamp or the cloud's is not a number, the
    drain propagates [older] and takes [y] out of the buffer without
    propagating it and without putting it back: neither [<] nor [>=] holds
    for it. *)
Theorem drain_loses_unordered_sample (s : t) (older : list IMUData.t) y r :
  imu_raw_data_buff_ s = older ++ y :: r ->
  Forall (fun x => older_than (current_cloud_data_ s) x = true) older ->
  unordered (IMUData.time y) (CloudData.time (current_cloud_data_ s)) = true ->
  returns drain_imu_raw s (fun _ s' =>
    imu_raw_data_buff_ s' = r
    /\ current_imu_raw_data_ s' = y
    /\ emitted s' = emitted s ++ fst (propagate older (filtering_ptr_ s))).
Proof.
  intros Hbuf Hold Hy. apply unordered_cases in Hy.
  assert (older_than (current_cloud_data_ s) y = false) as Hlt.
  { unfold older_than. destruct Hy as [Hy|Hy];
      [apply Double.not_number_ltb_l | apply Double.not_number_ltb_r]; exact Hy. }
  assert ((IMUData.time y >=? CloudData.time (current_cloud_data_ s))%float = false)
    as Hge.
  { destruct Hy as [Hy|Hy];
      [apply Double.not_number_leb_r | apply Double.not_number_leb_l]; exact Hy. }
  unfold returns. rewrite drain_imu_raw_drained.
  destruct (drained_emitted s) as [He _].
  rewrite drained_raw_buff, He, Hbuf, (after_older_split r Hold Hlt),
    (leading_older_split r Hold Hlt), Hge.
  split; [reflexivity|]. split; [|reflexivity].
  unfold drained. rewrite Hbuf, (after_older_split r Hold Hlt), Hge. reflexivity.
Qed.

(** *** The stamp of the correction's fused output *)

Lemma drained_current_raw (s : t) (older : list IMUData.t) y r :
  imu_raw_data_buff_ s = older ++ y :: r ->
  Forall (fun x => older_than (current_cloud_data_ s) x = true) older ->
  older_than (current_cloud_data_ s) y = false ->
  current_imu_raw_data_ (drained s) = y.
Proof.
  intros Hbuf Hold Hy. unfold drained.
  rewrite Hbuf, (after_older_split r Hold Hy).
  destruct (_ >=? _)%float; reflexivity.
Qed.

(** X12.  The stamp on the fused output of a correction.  In an initialized
    cycle that consumes an aligned triple, when the drain stops at a raw
    sample [y] that is not older than the cloud, the transform and the fused
    odometry sent after a successful Correct carry the stamp of [y]: a
    sample that has not been handed to Update, the last Update having been
    for the last older sample and the Correct for the cloud. *)
Theorem correction_output_stamped_by_stopping_sample (s : t) c cs g gs i is_
    (older : list IMUData.t) y r :
  inited s = true ->
  cloud_data_buff_ s = c :: cs ->
  gnss_data_buff_ s = g :: gs ->
  imu_synced_data_buff_ s = i :: is_ ->
  within_tolerance (CloudData.time c) (PoseData.time g) = true ->
  within_tolerance (CloudData.time c) (IMUData.time i) = true ->
  imu_raw_data_buff_ s = older ++ y :: r ->
  Forall (fun x => older_than c x = true) older ->
  older_than c y = false ->
  let k := Filtering.Correct i c (laser_pose_ s)
             (snd (propagate older (filtering_ptr_ s))) in
  fst (fst k) = true ->
  returns cycle s (fun _ s' =>
    exists later,
      emitted s'
      = emitted s ++ fst (propagate older (filtering_ptr_ s))
        ++ [Call_Correct i c true;
            Publish_laser_odom (snd (fst k)) (CloudData.time c);
            Publish_current_scan (Filtering.GetCurrentScan (snd k));
            SendTransform (fst (Filtering.GetOdometry (snd k))) (IMUData.time y);
            Publish_fused_odom (fst (Filtering.GetOdometry (snd k)))
              (snd (Filtering.GetOdometry (snd k))) (IMUData.time y)]
        ++ later).
Proof.
  intros Hin Hc Hg Hi Wg Wi Hbuf Hold Hy k Hk. unfold returns.
  rewrite (cycle_initialized s Hin), (HasLidarData_and_ValidLidarData s Hc Hg Hi),
    (ValidLidarData_outcome s Hc Hg Hi).
  destruct (within_tolerance_passes Wg Wi) as (-> & -> & ->).
  set (s1 := set_imu_synced_data_buff_ _ _).
  assert (imu_raw_data_buff_ s1 = imu_raw_data_buff_ s
          /\ current_cloud_data_ s1 = c /\ current_imu_synced_data_ s1 = i
          /\ laser_pose_ s1 = laser_pose_ s /\ filtering_ptr_ s1 = filtering_ptr_ s
          /\ emitted s1 = emitted s) as (Er & Ec & Ei & El & Ef & Ee).
  { destruct s. cbn. auto 10. }
  rewrite tail_propagated_emitted, corrected_sent.
  destruct (drained_emitted s1) as [He Hf].
  rewrite He, Hf, drained_current_synced, drained_current_cloud, drained_laser_pose.
  rewrite (@drained_current_raw s1 older y r);
    [|rewrite Er; exact Hbuf|rewrite Ec; exact Hold|rewrite Ec; exact Hy].
  rewrite Er, Ec, Ei, El, Ef, Ee, Hbuf, (leading_older_split r Hold Hy).
  fold k. rewrite Hk. unfold fused_output.
  eexists. rewrite <- !app_assoc. cbn [app]. reflexivity.
Qed.

(** *** The shape of what Run emits *)

Lemma steps_one (b : list Event) : step_events b -> steps b.
Proof.
  intros H. rewrite <- (app_nil_r b). apply steps_more; [exact H|constructor].
Qed.

Lemma steps_app (l1 l2 : list Event) : steps l1 -> steps l2 -> steps (l1 ++ l2).
Proof.
  intros H1 H2. induction H1 as [|b l Hb _ IH]; [exact H2|].
  rewrite <- app_assoc. apply steps_more; assumption.
Qed.

Lemma update_steps (x : IMUData.t) (f : Filtering.t) :
  step_events (Call_Update x (fst (Filtering.Update x f))
               :: (if fst (Filtering.Update x f)
                   then fused_output x (snd (Filtering.Update x f))
                   else [])).
Proof.
  destruct (fst (Filtering.Update x f)); constructor.
Qed.

Lemma propagate_steps (xs : list IMUData.t) (f : Filtering.t) :
  steps (fst (propagate xs f)).
Proof.
  revert f. induction xs as [|x xs IH]; intros f; [constructor|].
  cbn [propagate fst]. apply steps_more; [apply update_steps | apply IH].
Qed.

Lemma worked_refl (s : t) : worked s s.
Proof. exists []. rewrite app_nil_r. split; [reflexivity|constructor]. Qed.

Lemma worked_trans (s0 s1 s2 : t) : worked s0 s1 -> worked s1 s2 -> worked s0 s2.
Proof.
  intros (w1 & E1 & H1) (w2 & E2 & H2). exists (w1 ++ w2).
  rewrite E2, E1, app_assoc. split; [reflexivity|apply steps_app; assumption].
Qed.

Lemma worked_same (s s' : t) : emitted s' = emitted s -> worked s s'.
Proof.
  intros E. exists []. rewrite app_nil_r. split; [exact E|constructor].
Qed.

Lemma drained_worked (s : t) : worked s (drained s).
Proof.
  destruct (drained_emitted s) as [He _]. eexists. split; [exact He|].
  apply propagate_steps.
Qed.

Lemma corrected_worked (s : t) : worked s (corrected s).
Proof.
  destruct s. unfold worked, corrected, fused_output. cbn.
  destruct (fst (fst (Filtering.Correct _ _ _ _))); cbn;
    eexists; (split; [reflexivity|]); apply steps_one; constructor.
Qed.

Lemma tail_propagated_worked (s : t) : worked s (tail_propagated s).
Proof.
  eexists. split; [apply tail_propagated_emitted|].
  destruct (imu_raw_data_buff_ s); [constructor|].
  apply steps_one, update_steps.
Qed.

Lemma initialized_worked (s : t) : worked s (initialized s).
Proof.
  destruct s. unfold worked, initialized, seeded.
  cbn [current_gnss_data_ current_cloud_data_ current_imu_synced_data_ filtering_ptr_
       emitted].
  destruct (fst (Filtering.Init_scan _ _ _ _)); cbn;
    eexists; (split; [reflexivity|]); apply steps_one; constructor.
Qed.

(** The body of the outer loop emits steps. *)
Lemma cycle_worked (s : t) :
  HasData s = Some (true, s) ->
  returns cycle s (fun _ s' => worked s s' /\ buffered s' < buffered s).
Proof.
  intros Hd. pose proof (cycle_progress Hd) as Hp. unfold returns in *.
  destruct (cycle s) as [[[] s']|] eqn:Ec; [|contradiction].
  destruct Hp as [Hlt _]. split; [|exact Hlt].
  destruct (inited s) eqn:Hin.
  - rewrite (cycle_initialized s Hin) in Ec.
    destruct ((HasLidarData &&& ValidLidarData) s) as [[b s1]|] eqn:Ev; [|discriminate].
    assert (worked s s1) as H1.
    { apply worked_same. revert Ev. unfold andM, bind, HasLidarData, gets.
      destruct (_ && _).
      - intros Ev. apply ValidLidarData_effect in Ev. apply Ev.
      - intros Ev. inversion Ev. reflexivity. }
    destruct b; inversion Ec; subst s'.
    + apply worked_trans with s1; [exact H1|].
      apply worked_trans with (drained s1); [apply drained_worked|].
      apply worked_trans with (corrected (drained s1)); [apply corrected_worked|].
      apply tail_propagated_worked.
    + apply worked_trans with s1; [exact H1|apply tail_propagated_worked].
  - rewrite (cycle_uninitialized s Hin) in Ec.
    destruct (ValidLidarData s) as [[b s1]|] eqn:Ev; [|discriminate].
    apply ValidLidarData_effect in Ev. destruct Ev as (_ & _ & Ee & _).
    destruct b; inversion Ec; subst s'.
    + apply worked_trans with s1; [apply worked_same, Ee|apply initialized_worked].
    + apply worked_same, Ee.
Qed.

Lemma PublishGlobalMap_emits (b : bool) (s : t) :
  returns (PublishGlobalMap b) s (fun _ s' =>
    exists g, emitted s' = emitted s ++ g
              /\ (g = [] \/ b = true /\ exists c, g = [Publish_global_map c])
              /\ calibration_received s' = calibration_received s).
Proof.
  destruct s. unfold returns, PublishGlobalMap. run_flow.
  destruct (Filtering.HasNewGlobalMap _), b; cbn.
  2-4: exists []; rewrite app_nil_r; auto.
  destruct (Filtering.GetGlobalMap _) as [m f']. cbn.
  eexists. split; [reflexivity|]. split; [right; eauto|reflexivity].
Qed.

Lemma PublishLocalMap_emits (b : bool) (s : t) :
  returns (PublishLocalMap b) s (fun _ s' =>
    exists l, emitted s' = emitted s ++ l
              /\ (l = [] \/ b = true /\ exists c, l = [Publish_local_map c])
              /\ calibration_received s' = calibration_received s).
Proof.
  destruct s. unfold returns, PublishLocalMap. run_flow.
  destruct (Filtering.HasNewLocalMap _), b; cbn.
  2-4: exists []; rewrite app_nil_r; auto.
  eexists. split; [reflexivity|]. split; [right; eauto|reflexivity].
Qed.

Lemma ReadData_emitted (tick : Tick) (s : t) :
  returns (ReadData tick) s (fun _ s' => emitted s' = emitted s).
Proof.
  destruct s. unfold returns, ReadData. run_flow. reflexivity.
Qed.

(** Past the gate: the maps, then steps. *)
Lemma Run_emits_past_the_gate (tick : Tick) (s : t) :
  returns
    (PublishGlobalMap (global_map_has_subscribers tick) ;;
     PublishLocalMap (local_map_has_subscribers tick) ;;
     ReadData tick ;;
     n <- gets buffered ;;
     while n HasData cycle ;;
     ret true) s
    (fun ok s' =>
       ok = true
       /\ exists maps work,
            emitted s' = emitted s ++ maps ++ work
            /\ map_events tick maps /\ steps work).
Proof.
  eapply returns_seq; [apply PublishGlobalMap_emits|].
  cbn beta. intros b1 s1 (g & Eg & Hg & _).
  eapply returns_seq; [apply PublishLocalMap_emits|].
  cbn beta. intros b2 s2 (l & El & Hl & _).
  eapply returns_seq; [apply ReadData_emitted|].
  cbn beta. intros b3 s3 Ee.
  apply returns_bind. unfold returns at 1, gets.
  eapply returns_seq; [apply (outer_loop_returns (worked s3))|].
  - intros s4 H4 Hd. eapply returns_weaken; [|apply (cycle_worked Hd)].
    cbn beta. intros u s5 (H5 & Hlt). split; [|exact Hlt].
    apply worked_trans with s4; assumption.
  - apply worked_refl.
  - cbn beta. intros u s4 ((work & Ew & Hw) & _). unfold returns, ret.
    split; [reflexivity|]. exists (g ++ l), work.
    rewrite Ew, Ee, El, Eg, <- !app_assoc. split; [reflexivity|].
    split; [|exact Hw]. exists g, l. auto.
Qed.

(** X8.  What one call of Run emits, in order: the transform lookup, unless
    the calibration had been received; when the call passes the gate, at
    most one global map and at most one local map, each only with a
    subscriber; then the steps of the loop.  A step is an initialization with
    its log line, an Update followed by the transform and the fused odometry
    of the same pose and stamp when it succeeded and by nothing when it
    failed, or a Correct followed by the laser odometry with the cloud's
    stamp and the current scan, and by the transform and fused odometry when
    it succeeded.  The call returns true exactly when the calibration has
    been received or the lookup finds the transform. *)
Theorem Run_emits (tick : Tick) (s : t) :
  returns (Run tick) s (fun ok s' =>
    ok = calibration_received s
         || match tf_lookup tick with Some _ => true | None => false end
    /\ exists sent,
         emitted s' = emitted s ++ sent
         /\ Run_events tick (calibration_received s) ok sent).
Proof.
  unfold Run. apply returns_bind. unfold returns at 1.
  destruct (calibration_received s) eqn:H.
  - rewrite (InitCalibration_received _ s H). cbn [negb orb].
    eapply returns_weaken; [|apply Run_emits_past_the_gate].
    cbn beta. intros ok s' (-> & maps & work & E & Hm & Hw).
    split; [reflexivity|]. exists (maps ++ work). split; [exact E|].
    exists maps, work. repeat split; try assumption; discriminate.
  - destruct (tf_lookup tick) as [transform|].
    + rewrite (InitCalibration_resolved transform s H). cbn [negb orb].
      eapply returns_weaken; [|apply Run_emits_past_the_gate].
      cbn beta. intros ok s' (-> & maps & work & E & Hm & Hw).
      split; [reflexivity|]. exists ([LookupData true] ++ maps ++ work).
      split.
      * rewrite E. destruct s. cbn. rewrite <- app_assoc. reflexivity.
      * exists maps, work. repeat split; try assumption; discriminate.
    + rewrite (InitCalibration_unavailable s H). cbn [negb orb].
      unfold returns, ret. split; [reflexivity|]. exists [LookupData false].
      split; [destruct s; reflexivity|].
      exists [], []. repeat split; try constructor.
      exists [], []. auto.
Qed.

(** *** Where the raw samples go *)

Lemma updates_app (l1 l2 : list Event) : updates (l1 ++ l2) = updates l1 ++ updates l2.
Proof.
  induction l1 as [|e l1 IH]; [reflexivity|].
  destruct e; cbn [app updates]; rewrite ?IH; reflexivity.
Qed.

Lemma updates_propagate (xs : list IMUData.t) (f : Filtering.t) :
  updates (fst (propagate xs f)) = xs.
Proof.
  revert f. induction xs as [|x xs IH]; intros f; [reflexivity|].
  cbn [propagate fst]. rewrite updates_app, IH.
  destruct (fst (Filtering.Update x f)); reflexivity.
Qed.

Lemma map_events_updates (tick : Tick) (maps : list Event) :
  map_events tick maps -> updates maps = [].
Proof.
  intros (g & l & -> & Hg & Hl). rewrite updates_app.
  destruct Hg as [->|(_ & c & ->)], Hl as [->|(_ & c' & ->)]; reflexivity.
Qed.

Lemma tail_propagated_accounted (s : t) : accounted (tail_propagated s) = accounted s.
Proof.
  unfold accounted. rewrite tail_propagated_emitted, tail_propagated_raw_buff.
  destruct (imu_raw_data_buff_ s) as [|x r]; [cbn [tl]; rewrite !app_nil_r; reflexivity|].
  rewrite updates_app. cbn [updates tl].
  destruct (fst (Filtering.Update x _)); cbn; rewrite <- app_assoc; reflexivity.
Qed.

Lemma corrected_accounted (s : t) : accounted (corrected s) = accounted s.
Proof.
  unfold accounted. rewrite corrected_raw_buff. f_equal.
  destruct s. unfold corrected, fused_output. cbn.
  destruct (fst (fst (Filtering.Correct _ _ _ _))); cbn;
    rewrite updates_app, app_nil_r; reflexivity.
Qed.

(** The drain loses no raw sample when the stamps are numbers: the samples
    it propagates and the ones it leaves are the ones it found. *)
Lemma drained_accounted (s : t) :
  is_number (CloudData.time (current_cloud_data_ s)) = true ->
  raw_numbers (imu_raw_data_buff_ s) ->
  Permutation (accounted (drained s)) (accounted s)
  /\ raw_numbers (imu_raw_data_buff_ (drained s)).
Proof.
  intros Hc Hn. unfold accounted.
  destruct (drained_emitted s) as [-> _]. rewrite drained_raw_buff.
  rewrite updates_app, updates_propagate.
  pose proof (eq_sym (leading_after_older (current_cloud_data_ s)
                        (imu_raw_data_buff_ s))) as Hs.
  remember (leading_older (current_cloud_data_ s) (imu_raw_data_buff_ s)) as older.
  clear Heqolder.
  destruct (after_older _ _) as [|y r] eqn:Ea.
  - rewrite app_nil_r in Hs. subst older. rewrite app_nil_r.
    split; [apply Permutation_refl|constructor].
  - pose proof (after_older_head (current_cloud_data_ s) (imu_raw_data_buff_ s)) as Hy.
    rewrite Ea in Hy. unfold older_than in Hy.
    unfold raw_numbers in *. rewrite <- Hs in Hn.
    apply Forall_app in Hn. destruct Hn as [_ Hn].
    inversion Hn as [|? ? Hny Hnr]. subst.
    rewrite (Double.not_ltb_leb Hny Hc Hy). unfold push_back.
    split.
    + rewrite <- Hs, <- app_assoc.
      do 2 apply Permutation_app_head.
      apply Permutation_sym, Permutation_cons_append.
    + apply Forall_app. split; [exact Hnr|]. constructor; [exact Hny|constructor].
Qed.

Lemma ValidLidarData_cloud (s s1 : t) (b : bool) :
  ValidLidarData s = Some (b, s1) ->
  exists c cs,
    cloud_data_buff_ s = c :: cs /\ current_cloud_data_ s1 = c
    /\ (cloud_data_buff_ s1 = cs \/ cloud_data_buff_ s1 = c :: cs).
Proof.
  intros Ev.
  destruct (@ValidLidarData_fronts s s1 b Ev) as (c & cs & g & gs & i & is_ & Hc & Hg & Hi).
  rewrite (@ValidLidarData_outcome s c cs g gs i is_ Hc Hg Hi) in Ev.
  exists c, cs. split; [exact Hc|].
  destruct (_ || _);
    [|destruct (companion_behind _ (PoseData.time g));
      [|destruct (companion_behind _ (IMUData.time i))]];
    inversion Ev; subst; destruct s; cbn in *; auto.
Qed.

Lemma lidar_buffers_cloud (s s' : t) :
  lidar_buffers s' = lidar_buffers s -> cloud_data_buff_ s' = cloud_data_buff_ s.
Proof. unfold lidar_buffers. intros H. inversion H. reflexivity. Qed.

Lemma HasData_false_inited (s s' : t) :
  HasData s = Some (false, s') -> inited s = true -> imu_raw_data_buff_ s = [].
Proof.
  unfold HasData, HasInited, inited. run_flow. intros H Hi. rewrite Hi in H. cbn in H.
  destruct (imu_raw_data_buff_ s); [reflexivity|]. cbn in H. discriminate.
Qed.

(** Without a triple an initialized cycle is its last statement alone. *)
Lemma cycle_without_triple (s : t) :
  inited s = true ->
  cloud_data_buff_ s = [] \/ gnss_data_buff_ s = [] \/ imu_synced_data_buff_ s = [] ->
  cycle s = Some (tt, tail_propagated s).
Proof.
  intros Hi He. rewrite (cycle_initialized s Hi).
  unfold andM, bind, HasLidarData, gets.
  destruct He as [ -> | [ -> | -> ] ]; cbn [empty negb andb]; rewrite ?andb_false_r;
    reflexivity.
Qed.

(** *** The initialization flag *)
Section Initialization.
Context {L : Filtering.laws}.

Lemma init_once_refl (s : t) : init_once s s.
Proof.
  unfold init_once. destruct (inited s) eqn:E; auto.
Qed.

Lemma init_once_trans (s0 s1 s2 : t) :
  init_once s0 s1 -> init_once s1 s2 -> init_once s0 s2.
Proof.
  unfold init_once. destruct (inited s0).
  - intros [-> <-]. auto.
  - intros [[-> <-]|[-> [e He]]]; [auto|].
    intros [H2 E2]. right. split; [exact H2|]. exists e. congruence.
Qed.

(** A later flow with the same log lines and a filter that is still
    initialized if it was. *)
Lemma init_once_kept (s s' : t) :
  init_logs s' = init_logs s ->
  (inited s = true -> inited s' = true) ->
  (inited s = false -> inited s' = false) ->
  init_once s s'.
Proof.
  unfold init_once. intros El Ht Hf. destruct (inited s); auto.
Qed.

Lemma propagate_inited (xs : list IMUData.t) (f : Filtering.t) :
  Filtering.HasInited f = true ->
  Filtering.HasInited (snd (propagate xs f)) = true.
Proof.
  revert f. induction xs as [|x xs IH]; intros f H; [exact H|].
  cbn [propagate snd]. apply IH. apply Filtering.Update_inited. exact H.
Qed.

Lemma drained_inited (s : t) : inited s = true -> inited (drained s) = true.
Proof.
  unfold inited. destruct (drained_emitted s) as [_ ->]. apply propagate_inited.
Qed.

Lemma corrected_inited (s : t) : inited s = true -> inited (corrected s) = true.
Proof.
  intros H.
  assert (filtering_ptr_ (corrected s)
          = snd (Filtering.Correct (current_imu_synced_data_ s) (current_cloud_data_ s)
                   (laser_pose_ s) (filtering_ptr_ s))) as E.
  { destruct s. unfold corrected. cbn. destruct (fst (fst _)); reflexivity. }
  unfold inited. rewrite E. apply Filtering.Correct_inited. exact H.
Qed.

Lemma tail_propagated_inited (s : t) :
  inited s = true -> inited (tail_propagated s) = true.
Proof.
  intros H. unfold tail_propagated. destruct (imu_raw_data_buff_ s) as [|x r]; [exact H|].
  assert (filtering_ptr_ (propagate_step x (set_imu_raw_data_buff_ r s))
          = snd (Filtering.Update x (filtering_ptr_ s))) as E.
  { destruct s. unfold propagate_step. cbn. destruct (fst _); reflexivity. }
  unfold inited. rewrite E. apply Filtering.Update_inited. exact H.
Qed.

(** InitLocalization leaves the filter initialized, and one more log line. *)
Lemma initialized_inited (s : t) :
  inited (initialized s) = true
  /\ exists e, init_logs (initialized s) = init_logs s ++ [e].
Proof.
  destruct s. unfold initialized, seeded, inited, init_logs.
  cbn [current_gnss_data_ current_cloud_data_ current_imu_synced_data_ filtering_ptr_
       emitted].
  destruct (fst (Filtering.Init_scan _ _ _ _)) eqn:E; cbn; rewrite filter_app; cbn.
  - split; [apply Filtering.Init_scan_inited; exact E | eexists; reflexivity].
  - split; [apply Filtering.Init_pose_inited | eexists; reflexivity].
Qed.

(** The body of the outer loop initializes at most once, and only an
    uninitialized flow. *)
Lemma cycle_init_once (s : t) :
  HasData s = Some (true, s) ->
  returns cycle s (fun _ s' => init_once s s' /\ buffered s' < buffered s).
Proof.
  intros Hd. pose proof (cycle_progress Hd) as Hp. unfold returns in *.
  destruct (cycle s) as [[[] s']|] eqn:Ec; [|contradiction].
  destruct Hp as [Hlt _]. split; [|exact Hlt].
  unfold init_once. destruct (inited s) eqn:Hin.
  - rewrite (cycle_initialized s Hin) in Ec.
    destruct ((HasLidarData &&& ValidLidarData) s) as [[b s1]|] eqn:Ev; [|discriminate].
    assert (inited s1 = true /\ init_logs s1 = init_logs s) as [H1 E1].
    { revert Ev. unfold andM, bind, HasLidarData, gets.
      destruct (_ && _).
      - intros Ev. apply ValidLidarData_effect in Ev.
        destruct Ev as (_ & Ef & Ee & _). unfold inited, init_logs.
        rewrite Ef, Ee. auto.
      - intros Ev. inversion Ev. subst. auto. }
    destruct b; inversion Ec; subst s'.
    + split.
      * apply tail_propagated_inited, corrected_inited, drained_inited, H1.
      * rewrite tail_propagated_init_logs, corrected_init_logs, drained_init_logs.
        exact E1.
    + split; [apply tail_propagated_inited, H1|].
      rewrite tail_propagated_init_logs. exact E1.
  - rewrite (cycle_uninitialized s Hin) in Ec.
    destruct (ValidLidarData s) as [[b s1]|] eqn:Ev; [|discriminate].
    apply ValidLidarData_effect in Ev. destruct Ev as (_ & Ef & Ee & _).
    destruct b; inversion Ec; subst s'.
    + right. destruct (initialized_inited s1) as [Hi [e He]].
      split; [exact Hi|]. exists e. rewrite He. unfold init_logs. rewrite Ee. reflexivity.
    + left. unfold inited, init_logs in *. rewrite Ef, Ee. auto.
Qed.

(** Every call of Run initializes at most once, and only an uninitialized
    flow. *)
Lemma Run_init_once (tick : Tick) (s : t) :
  returns (Run tick) s (fun _ s' => init_once s s').
Proof.
  assert (forall s0 : t,
            returns
              (PublishGlobalMap (global_map_has_subscribers tick) ;;
               PublishLocalMap (local_map_has_subscribers tick) ;;
               ReadData tick ;;
               n <- gets buffered ;;
               while n HasData cycle ;;
               ret true) s0
              (fun _ s' => init_once s0 s')) as Hrest.
  { intros s0.
    eapply returns_weaken;
      [|apply Run_past_the_gate with (I := fun s' => init_once s0 s')].
    - intros b s' (_ & H & _). exact H.
    - intros b s1 H1. eapply returns_weaken; [|apply PublishGlobalMap_effect].
      cbn beta. intros u s2 (_ & El & Ef). apply init_once_trans with s1; [exact H1|].
      apply init_once_kept; [exact El| |]; unfold inited;
        destruct Ef as [-> | ->]; rewrite ?Filtering.GetGlobalMap_inited; auto.
    - intros b s1 H1. eapply returns_weaken; [|apply PublishLocalMap_effect].
      cbn beta. intros u s2 (_ & El & Ef). apply init_once_trans with s1; [exact H1|].
      apply init_once_kept; [exact El| |]; unfold inited; rewrite Ef; auto.
    - intros s1 H1. eapply returns_weaken; [|apply ReadData_effect].
      cbn beta. intros u s2 (_ & El & Ef). apply init_once_trans with s1; [exact H1|].
      apply init_once_kept; [exact El| |]; unfold inited; rewrite Ef; auto.
    - intros s1 H1 Hd. eapply returns_weaken; [|apply (cycle_init_once Hd)].
      cbn beta. intros u s2 (Ho & Hlt). split; [|exact Hlt].
      apply init_once_trans with s1; assumption.
    - apply init_once_refl. }
  assert (forall (s0 s1 : t),
            filtering_ptr_ s1 = filtering_ptr_ s0 ->
            init_logs s1 = init_logs s0 -> init_once s0 s1) as Hsame.
  { intros s0 s1 Ef El. apply init_once_kept; [exact El| |]; unfold inited;
      rewrite Ef; auto. }
  unfold Run. apply returns_bind. unfold returns at 1.
  destruct (calibration_received s) eqn:H.
  - rewrite (InitCalibration_received _ s H). cbn [negb]. apply Hrest.
  - destruct (tf_lookup tick) as [transform|].
    + rewrite (InitCalibration_resolved transform s H). cbn [negb].
      eapply returns_weaken; [|apply Hrest].
      cbn beta. intros b s' Ho. eapply init_once_trans; [|exact Ho].
      apply Hsame; [reflexivity|].
      destruct s. unfold init_logs. cbn. rewrite filter_app. cbn. apply app_nil_r.
    + rewrite (InitCalibration_unavailable s H). cbn [negb].
      unfold returns, ret. apply Hsame; [reflexivity|].
      destruct s. unfold init_logs. cbn. rewrite filter_app. cbn. apply app_nil_r.
Qed.

(** C7.  The initialization flag of the flow over a whole run, for a filter
    whose flag is false when it is constructed, set by a successful Init and
    kept by Update and Correct.
    - A flow around a newly constructed filter is uninitialized.
    - Over any number of calls of Run, a flow that is initialized stays
      initialized, and InitLocalization does not run again; a flow that is
      not is, at the end, either still uninitialized, InitLocalization not
      having run, or initialized, InitLocalization having run exactly once.
    - In a cycle of an uninitialized flow, when ValidLidarData rejects the
      fronts the flow stays uninitialized; when it accepts a triple,
      InitLocalization runs and the flow is initialized. *)
Theorem HasInited_terminal (ticks : list Tick) (s : t) :
  inited (set_filtering_ptr_ Filtering.create s) = false
  /\ returns (Runs ticks) s (fun _ s' => init_once s s')
  /\ (forall s1, inited s = false -> ValidLidarData s = Some (false, s1) ->
      cycle s = Some (tt, s1) /\ inited s1 = false)
  /\ (forall s1, inited s = false -> ValidLidarData s = Some (true, s1) ->
      cycle s = Some (tt, initialized s1) /\ inited (initialized s1) = true).
Proof.
  split; [|split; [|split]].
  - destruct s. apply Filtering.create_uninitialized.
  - revert s. induction ticks as [|tick ticks IH]; intros s.
    + unfold returns. cbn. apply init_once_refl.
    + cbn [Runs]. eapply returns_seq; [apply Run_init_once|].
      cbn beta. intros b s1 H1. eapply returns_weaken; [|apply IH].
      cbn beta. intros u s2 H2. apply init_once_trans with s1; assumption.
  - intros s1 Hin Ev. rewrite (cycle_uninitialized s Hin), Ev. split; [reflexivity|].
    apply ValidLidarData_effect in Ev. destruct Ev as (_ & Ef & _).
    unfold inited in *. rewrite Ef. exact Hin.
  - intros s1 Hin Ev. rewrite (cycle_uninitialized s Hin), Ev. split; [reflexivity|].
    apply initialized_inited.
Qed.

(** *** Raw samples under an initialized filter *)

Lemma PublishGlobalMap_keeps (b : bool) (s : t) :
  returns (PublishGlobalMap b) s (fun _ s' =>
    inited s' = inited s
    /\ imu_raw_data_buff_ s' = imu_raw_data_buff_ s
    /\ lidar_buffers s' = lidar_buffers s
    /\ exists g, emitted s' = emitted s ++ g
         /\ (g = [] \/ b = true /\ exists c, g = [Publish_global_map c])).
Proof.
  pose proof (Filtering.GetGlobalMap_inited (filtering_ptr_ s)) as Hg.
  destruct s. unfold returns, PublishGlobalMap, inited, lidar_buffers in *. run_flow.
  destruct (Filtering.HasNewGlobalMap _), b; cbn.
  2-4: repeat split; exists []; rewrite app_nil_r; auto.
  cbn in Hg. destruct (Filtering.GetGlobalMap _) as [m f']. cbn in *.
  repeat split; [exact Hg|]. eexists. split; [reflexivity|]. right; eauto.
Qed.

Lemma PublishLocalMap_keeps (b : bool) (s : t) :
  returns (PublishLocalMap b) s (fun _ s' =>
    inited s' = inited s
    /\ imu_raw_data_buff_ s' = imu_raw_data_buff_ s
    /\ lidar_buffers s' = lidar_buffers s
    /\ exists l, emitted s' = emitted s ++ l
         /\ (l = [] \/ b = true /\ exists c, l = [Publish_local_map c])).
Proof.
  destruct s. unfold returns, PublishLocalMap, inited, lidar_buffers. run_flow.
  destruct (Filtering.HasNewLocalMap _), b; cbn.
  2-4: repeat split; exists []; rewrite app_nil_r; auto.
  repeat split. eexists. split; [reflexivity|]. right; eauto.
Qed.

Lemma ReadData_reads (tick : Tick) (s : t) :
  returns (ReadData tick) s (fun _ s' =>
    read tick s s' /\ emitted s' = emitted s /\ filtering_ptr_ s' = filtering_ptr_ s).
Proof.
  destruct s. unfold returns, ReadData, read. run_flow. auto.
Qed.

Lemma lidar_buffers_eq (s s' : t) :
  lidar_buffers s' = lidar_buffers s ->
  cloud_data_buff_ s' = cloud_data_buff_ s
  /\ gnss_data_buff_ s' = gnss_data_buff_ s
  /\ imu_synced_data_buff_ s' = imu_synced_data_buff_ s.
Proof. unfold lidar_buffers. intros H. inversion H. auto. Qed.

(** Run on a flow that has its calibration: the maps, ReadData, and the
    loop on the flow that ReadData leaves. *)
Lemma Run_calibrated (tick : Tick) (s : t) (Q : bool -> t -> Prop) :
  calibration_received s = true ->
  (forall s3 maps,
     inited s3 = inited s -> read tick s s3 ->
     emitted s3 = emitted s ++ maps -> map_events tick maps ->
     returns (while (buffered s3) HasData cycle) s3 (fun _ s' => Q true s')) ->
  returns (Run tick) s Q.
Proof.
  intros Hc Hloop. unfold Run. apply returns_bind. unfold returns at 1.
  rewrite (InitCalibration_received _ s Hc). cbn [negb].
  eapply returns_seq; [apply PublishGlobalMap_keeps|].
  cbn beta. intros b1 s1 (Hi1 & Hr1 & Hl1 & g & Eg & Hg).
  eapply returns_seq; [apply PublishLocalMap_keeps|].
  cbn beta. intros b2 s2 (Hi2 & Hr2 & Hl2 & l & El & Hl).
  eapply returns_seq; [apply ReadData_reads|].
  cbn beta. intros b3 s3 (Hread & Ee & Ef).
  apply returns_bind. unfold returns at 1, gets.
  eapply returns_seq; [apply (Hloop s3 (g ++ l))|].
  - unfold inited in *. rewrite Ef. congruence.
  - destruct (lidar_buffers_eq Hl1) as (C1 & G1 & S1).
    destruct (lidar_buffers_eq Hl2) as (C2 & G2 & S2).
    unfold read in *. rewrite <- Hr1, <- C1, <- G1, <- S1, <- Hr2, <- C2, <- G2, <- S2.
    exact Hread.
  - rewrite Ee, El, Eg, <- app_assoc. reflexivity.
  - exists g, l. auto.
  - cbn beta. intros u s4 HQ. exact HQ.
Qed.

Lemma raw_numbers_tl (l : list IMUData.t) : raw_numbers l -> raw_numbers (tl l).
Proof.
  intros H. destruct l; [exact H|]. inversion H. assumption.
Qed.

(** An initialized cycle over stamps that are numbers hands raw samples to
    Update or leaves them in the buffer: none is lost, none is added. *)
Lemma cycle_accounts (s : t) :
  HasData s = Some (true, s) ->
  inited s = true ->
  raw_numbers (imu_raw_data_buff_ s) ->
  cloud_numbers (cloud_data_buff_ s) ->
  returns cycle s (fun _ s' =>
    (inited s' = true /\ raw_numbers (imu_raw_data_buff_ s')
     /\ cloud_numbers (cloud_data_buff_ s')
     /\ Permutation (accounted s') (accounted s))
    /\ buffered s' < buffered s).
Proof.
  intros Hd Hin Hr Hc. pose proof (cycle_progress Hd) as Hp. unfold returns in *.
  destruct (cycle s) as [[[] s']|] eqn:Ec; [|contradiction].
  destruct Hp as [Hlt _]. split; [|exact Hlt].
  rewrite (cycle_initialized s Hin) in Ec.
  destruct ((HasLidarData &&& ValidLidarData) s) as [[b s1]|] eqn:Ev; [|discriminate].
  assert (inited s1 = true /\ imu_raw_data_buff_ s1 = imu_raw_data_buff_ s
          /\ emitted s1 = emitted s /\ cloud_numbers (cloud_data_buff_ s1)
          /\ (b = true -> is_number (CloudData.time (current_cloud_data_ s1)) = true))
    as (H1 & Er & Ee & Hc1 & Hcur).
  { revert Ev. unfold andM, bind, HasLidarData, gets.
    destruct (_ && _).
    - intros Ev. destruct (@ValidLidarData_cloud s s1 b Ev) as (c & cs & Hb & Hcc & Hcs).
      apply ValidLidarData_effect in Ev. destruct Ev as (Er & Ef & Ee & _).
      unfold inited in *. rewrite Ef. unfold cloud_numbers in *.
      rewrite Hb in Hc. inversion Hc as [|? ? Hnc Hncs]. subst.
      repeat split; auto.
      destruct Hcs as [Hcs|Hcs]; rewrite Hcs; [assumption|constructor; assumption].
    - intros Ev. inversion Ev. subst. repeat split; auto. discriminate. }
  assert (accounted s1 = accounted s) as Ea
    by (unfold accounted; rewrite Er, Ee; reflexivity).
  rewrite <- Er in Hr.
  destruct b; inversion Ec; subst s'.
  - destruct (drained_accounted s1 (Hcur eq_refl) Hr) as [Hperm Hnum].
    split; [apply tail_propagated_inited, corrected_inited, drained_inited, H1|].
    split; [rewrite tail_propagated_raw_buff, corrected_raw_buff;
            apply raw_numbers_tl, Hnum|].
    split.
    + rewrite (lidar_buffers_cloud (tail_propagated_lidar_buffers _)),
        (lidar_buffers_cloud (corrected_lidar_buffers _)),
        (lidar_buffers_cloud (drained_lidar_buffers _)).
      exact Hc1.
    + rewrite tail_propagated_accounted, corrected_accounted, <- Ea. exact Hperm.
  - split; [apply tail_propagated_inited, H1|].
    split; [rewrite tail_propagated_raw_buff; apply raw_numbers_tl, Hr|].
    split.
    + rewrite (lidar_buffers_cloud (tail_propagated_lidar_buffers _)). exact Hc1.
    + rewrite tail_propagated_accounted, Ea. apply Permutation_refl.
Qed.

(** X9.  Under an initialized filter that stays initialized, with its
    calibration received and all raw and cloud stamps numbers, one call of
    Run returns true with the raw buffer empty, and the samples it has
    handed to Update are exactly the raw samples it found buffered and the
    ones the tick delivered, each as many times as it occurs there: no raw
    sample is dropped and none is propagated twice, in whatever order the
    drain in front of the corrections leaves them. *)
Theorem Run_updates_with_every_raw_sample (tick : Tick) (s : t) :
  calibration_received s = true ->
  inited s = true ->
  raw_numbers (imu_raw_data_buff_ s ++ new_imu_raw tick) ->
  cloud_numbers (cloud_data_buff_ s ++ new_cloud tick) ->
  returns (Run tick) s (fun ok s' =>
    ok = true
    /\ imu_raw_data_buff_ s' = []
    /\ Permutation (updates (emitted s'))
         (updates (emitted s) ++ imu_raw_data_buff_ s ++ new_imu_raw tick)).
Proof.
  intros Hcal Hin Hr Hc. apply Run_calibrated; [exact Hcal|].
  intros s3 maps Hi3 (Er & Ec & _ & _) Ee Hm.
  rewrite Hin in Hi3. rewrite <- Er in Hr. rewrite <- Ec in Hc.
  eapply returns_weaken;
    [|apply (outer_loop_returns
               (fun s' => inited s' = true /\ raw_numbers (imu_raw_data_buff_ s')
                          /\ cloud_numbers (cloud_data_buff_ s')
                          /\ Permutation (accounted s') (accounted s3)))].
  - cbn beta. intros u s4 ((Hi4 & _ & _ & Hperm) & Hd).
    pose proof (@HasData_false_inited s4 s4 Hd Hi4) as Hempty.
    split; [reflexivity|]. split; [exact Hempty|].
    unfold accounted in Hperm. rewrite Hempty, app_nil_r, Ee, Er in Hperm.
    rewrite updates_app, (map_events_updates Hm), app_nil_r in Hperm. exact Hperm.
  - intros s4 (Hi4 & Hr4 & Hc4 & Hperm) Hd.
    eapply returns_weaken; [|apply (cycle_accounts Hd Hi4 Hr4 Hc4)].
    cbn beta. intros u s5 ((Hi5 & Hr5 & Hc5 & Hp5) & Hlt).
    split; [|exact Hlt]. repeat split; try assumption.
    eapply Permutation_trans; eassumption.
  - repeat split; try assumption. apply Permutation_refl.
Qed.

(** X10.  Under an initialized filter that stays initialized, when one of
    the cloud, GNSS and synced-IMU channels is empty after ReadData, one
    call of Run hands every raw sample to Update in buffer order, the
    buffered ones before the delivered ones, leaves the raw buffer empty and
    consumes nothing from the other three buffers. *)
Theorem Run_without_triple_updates_in_order (tick : Tick) (s : t) :
  calibration_received s = true ->
  inited s = true ->
  no_triple tick s ->
  returns (Run tick) s (fun ok s' =>
    ok = true
    /\ imu_raw_data_buff_ s' = []
    /\ updates (emitted s')
       = updates (emitted s) ++ imu_raw_data_buff_ s ++ new_imu_raw tick
    /\ lidar_buffers s'
       = (cloud_data_buff_ s ++ new_cloud tick, gnss_data_buff_ s ++ new_gnss tick,
          imu_synced_data_buff_ s ++ new_imu_synced tick)).
Proof.
  intros Hcal Hin Hno. apply Run_calibrated; [exact Hcal|].
  intros s3 maps Hi3 (Er & Ec & Eg & Es) Ee Hm.
  rewrite Hin in Hi3. unfold no_triple in Hno. rewrite <- Ec, <- Eg, <- Es in *.
  eapply returns_weaken;
    [|apply (outer_loop_returns
               (fun s' => inited s' = true /\ lidar_buffers s' = lidar_buffers s3
                          /\ accounted s' = accounted s3))].
  - cbn beta. intros u s4 ((Hi4 & Hl4 & Ha) & Hd).
    pose proof (@HasData_false_inited s4 s4 Hd Hi4) as Hempty.
    split; [reflexivity|]. split; [exact Hempty|].
    unfold accounted in Ha. rewrite Hempty, app_nil_r, Ee, Er in Ha.
    rewrite updates_app, (map_events_updates Hm), app_nil_r in Ha.
    split; [exact Ha|exact Hl4].
  - intros s4 (Hi4 & Hl4 & Ha) Hd.
    pose proof (cycle_progress Hd) as Hp.
    destruct (lidar_buffers_eq Hl4) as (C4 & G4 & S4).
    assert (cycle s4 = Some (tt, tail_propagated s4)) as Ecy.
    { apply cycle_without_triple; [exact Hi4|]. rewrite C4, G4, S4. exact Hno. }
    unfold returns in *. rewrite Ecy in *. destruct Hp as [Hlt _].
    split; [|exact Hlt].
    split; [apply tail_propagated_inited, Hi4|].
    split; [rewrite tail_propagated_lidar_buffers; exact Hl4|].
    rewrite tail_propagated_accounted. exact Ha.
  - auto.
Qed.

Lemma HasData_uninitialized_without_triple (s : t) :
  inited s = false ->
  cloud_data_buff_ s = [] \/ gnss_data_buff_ s = [] \/ imu_synced_data_buff_ s = [] ->
  HasData s = Some (false, s).
Proof.
  unfold HasData, HasInited, inited. run_flow. intros Hi He. rewrite Hi. cbn.
  destruct He as [ -> | [ -> | -> ] ]; cbn [empty orb]; rewrite ?orb_true_r;
    reflexivity.
Qed.

(** X11.  Before initialization, when one of the cloud, GNSS and synced-IMU
    channels is empty after ReadData, one call of Run only buffers: it
    returns true, appends what the tick delivers to the four buffers and
    consumes nothing, so the raw samples pile up; it sends nothing but the
    maps, calls neither Init nor Update nor Correct, and the filter is
    still uninitialized. *)
Theorem uninitialized_Run_without_triple_only_buffers (tick : Tick) (s : t) :
  calibration_received s = true ->
  inited s = false ->
  no_triple tick s ->
  returns (Run tick) s (fun ok s' =>
    ok = true
    /\ inited s' = false
    /\ read tick s s'
    /\ exists maps, emitted s' = emitted s ++ maps /\ map_events tick maps).
Proof.
  intros Hcal Hin Hno. apply Run_calibrated; [exact Hcal|].
  intros s3 maps Hi3 Hread Ee Hm.
  rewrite Hin in Hi3. pose proof Hread as (Er & Ec & Eg & Es).
  unfold no_triple in Hno. rewrite <- Ec, <- Eg, <- Es in Hno.
  pose proof (HasData_uninitialized_without_triple s3 Hi3 Hno) as Hd3.
  eapply returns_weaken;
    [|apply (outer_loop_returns (fun s' => s' = s3))].
  - cbn beta. intros u s4 (-> & _).
    split; [reflexivity|]. split; [exact Hi3|]. split; [exact Hread|].
    exists maps. auto.
  - intros s4 -> Hd. rewrite Hd3 in Hd. discriminate.
  - reflexivity.
Qed.

End Initialization.

End FlowTheorems.

(** ** The theorems on the bench flows *)
Section OnTheBench.
Import FilteringFlow.
Import Bench.

(** Witness of C10: the front of [Bench.aligned]'s raw buffer, the sample
    at 1 s, is taken. *)
Lemma ValidIMUData_pops_front_bench :
  ValidIMUData Bench.aligned
  = Some (true,
          set_imu_raw_data_buff_ [Bench.imu 2; Bench.imu 5; Bench.imu 6; Bench.imu 7]
            (set_current_imu_raw_data_ (Bench.imu 1) Bench.aligned)).
Proof.
  exact (ValidIMUData_pops_front Bench.aligned eq_refl).
Defined.


(** Witness of C1 as the code has it: in [Bench.gnss_ahead] the GNSS front
    (1 s) is ahead of the cloud front (0 s), and the cloud front is dropped. *)
Lemma ValidLidarData_misaligned_bench :
  ValidLidarData Bench.gnss_ahead
  = Some (false,
          set_cloud_data_buff_ [Bench.cloud 1 2]
            (latched (Bench.cloud 0 1) (Bench.gnss 1) (Bench.imu 0) Bench.gnss_ahead)).
Proof.
  exact (proj1 (ValidLidarData_misaligned Bench.gnss_ahead eq_refl eq_refl eq_refl)
           eq_refl).
Defined.

(** Counterexample to C1 as stated.  In [Bench.gnss_behind] the GNSS front
    (0 s) is more than the tolerance behind the cloud front (1 s): the call
    does not drop the cloud (pose) front; it drops the GNSS front.  In
    [Bench.gnss_ahead] the GNSS front (1 s) is more than the tolerance ahead
    of the cloud front (0 s): the call does not drop the GNSS front and
    leave the cloud front; it drops the cloud front. *)
Lemma ValidLidarData_drops_the_older_front :
  (companion_behind 1 0 = true
   /\ ~ (exists s', ValidLidarData Bench.gnss_behind = Some (false, s')
                    /\ cloud_data_buff_ s' = [Bench.cloud 1.1 2])
   /\ exists s', ValidLidarData Bench.gnss_behind = Some (false, s')
                 /\ cloud_data_buff_ s' = [Bench.cloud 1 1; Bench.cloud 1.1 2]
                 /\ gnss_data_buff_ s' = [Bench.gnss 1])
  /\ (companion_ahead 0 1 = true
      /\ ~ (exists s', ValidLidarData Bench.gnss_ahead = Some (false, s')
                       /\ gnss_data_buff_ s' = [Bench.gnss 1.1]
                       /\ cloud_data_buff_ s' = [Bench.cloud 0 1; Bench.cloud 1 2])
      /\ exists s', ValidLidarData Bench.gnss_ahead = Some (false, s')
                    /\ gnss_data_buff_ s' = [Bench.gnss 1; Bench.gnss 1.1]
                    /\ cloud_data_buff_ s' = [Bench.cloud 1 2]).
Proof.
  repeat split.
  - intros (s' & E & Hc). vm_compute in E. inversion E. subst s'.
    cbn in Hc. discriminate Hc.
  - eexists. split; [vm_compute; reflexivity|]. split; reflexivity.
  - intros (s' & E & Hg & Hc). vm_compute in E. inversion E. subst s'.
    cbn in Hg. discriminate Hg.
  - eexists. split; [vm_compute; reflexivity|]. split; reflexivity.
Qed.

(** With both companions behind the cloud front, one call drops the GNSS
    front only: the synced-IMU front waits for the next call. *)
Lemma ValidLidarData_both_behind :
  returns ValidLidarData Bench.both_behind (fun valid s' =>
    valid = false
    /\ cloud_data_buff_ s' = [Bench.cloud 1 1]
    /\ gnss_data_buff_ s' = [Bench.gnss 1]
    /\ imu_synced_data_buff_ s' = [Bench.imu 0; Bench.imu 1]).
Proof.
  vm_compute. repeat split; reflexivity.
Qed.

(** The stand-in filter keeps its flag as the spec says a filter does. *)
Lemma stand_in_laws : @Filtering.laws Bench.payload Bench.stand_in.
Proof.
  constructor; cbn.
  - reflexivity.
  - intros c v i f. destruct (CloudData.cloud_ptr c); cbn; [discriminate|reflexivity].
  - reflexivity.
  - intros i f H. destruct (_ <=? _)%float; cbn; exact H.
  - intros i c p f H. destruct (CloudData.cloud_ptr c); cbn; exact H.
  - reflexivity.
Qed.

(** Witness of C6: InitLocalization on [Bench.seeding], raw samples at 1, 2,
    3 and 4 s and the synced sample at 3 s. *)
Lemma InitLocalization_discards_bench :
  returns InitLocalization Bench.seeding (fun _ s' =>
    imu_raw_data_buff_ s'
    = filter (fun x => negb (precedes (current_imu_synced_data_ Bench.seeding) x))
        (imu_raw_data_buff_ Bench.seeding)
    /\ Forall (fun x => (IMUData.time x
                         >=? IMUData.time (current_imu_synced_data_ Bench.seeding))%float
                        = true)
         (imu_raw_data_buff_ s')).
Proof.
  exact (InitLocalization_discards Bench.seeding eq_refl eq_refl).
Defined.

(** Counterexample to C6 as stated.  With the raw buffer 5, 1, 2, 4 s and
    the seeding sample at 3 s the discard loop stops at once, at the front
    at 5 s: the samples at 1 and 2 s, which precede the seed, stay in the
    buffer.  With the raw buffer 1, 2, 3, 4 s and a seeding stamp that is
    not a number nothing precedes the seed, nothing is discarded, and no
    remaining stamp is [>=] it. *)
Lemma InitLocalization_leaves_preceding_samples :
  returns InitLocalization Bench.seeding_unordered (fun _ s' =>
    imu_raw_data_buff_ s' = [Bench.imu 5; Bench.imu 1; Bench.imu 2; Bench.imu 4]
    /\ ~ Forall (fun x =>
                   (IMUData.time x
                    >=? IMUData.time (current_imu_synced_data_ Bench.seeding_unordered))%float
                   = true)
           (imu_raw_data_buff_ s'))
  /\ returns InitLocalization Bench.seeding_unstamped (fun _ s' =>
       imu_raw_data_buff_ s' = [Bench.imu 1; Bench.imu 2; Bench.imu 3; Bench.imu 4]
       /\ ~ Forall (fun x =>
                      (IMUData.time x
                       >=? IMUData.time (current_imu_synced_data_ Bench.seeding_unstamped))%float
                      = true)
              (imu_raw_data_buff_ s')).
Proof.
  split; unfold returns; rewrite InitLocalization_initialized;
    (split; [reflexivity|]); intros H.
  - apply Forall_inv_tail, Forall_inv in H. discriminate H.
  - apply Forall_inv in H. discriminate H.
Qed.

(** On [Bench.seeding] the samples at 1 and 2 s are discarded and those at 3
    and 4 s are left. *)
Lemma InitLocalization_discards_below_3 :
  returns InitLocalization Bench.seeding (fun ok s' =>
    ok = true /\ imu_raw_data_buff_ s' = [Bench.imu 3; Bench.imu 4]).
Proof.
  vm_compute. split; reflexivity.
Qed.

(** Where the scan-context Init fails the filter is seeded from the GNSS
    pose, and InitLocalization still returns true. *)
Lemma InitLocalization_falls_back :
  returns InitLocalization Bench.seeding_without_scan (fun ok s' =>
    ok = true
    /\ inited s' = true
    /\ emitted s'
       = [Call_Init_scan (Bench.cloud 3 0) 0 (Bench.imu 3) false;
          Call_Init_pose 0 0 (Bench.imu 3) true;
          Log_init_failed]).
Proof.
  vm_compute. repeat split; reflexivity.
Qed.

(** Witness of C7: a call of Run that resolves the calibration and
    initializes [Bench.starting], and one more call. *)
Lemma HasInited_terminal_bench :
  returns (Runs [Bench.calibrating 0; Bench.quiet]) Bench.starting
    (fun _ s' => init_once Bench.starting s').
Proof.
  exact (proj1 (proj2 (@HasInited_terminal Bench.payload Bench.stand_in stand_in_laws
                         [Bench.calibrating 0; Bench.quiet] Bench.starting))).
Defined.

(** C4, where the code departs from it.  The drain on [Bench.draining],
    whose raw buffer is in timestamp order (1, 2, 5, 6, 7 s) with the cloud
    at 3 s: the sample at 5 s, the first one not older than the cloud, is kept
    but ends behind those at 6 and 7 s, and the buffer is no longer in
    timestamp order.  So it is in a run from a newly constructed flow that
    receives every channel in timestamp order: the sample at 5 s reaches the
    filter after those at 6 and 7 s, and the stand-in filter, whose clock is
    then at 7 s, refuses it. *)
Theorem drain_reorders_raw_buffer :
  ordered (map IMUData.time (imu_raw_data_buff_ Bench.draining)) = true
  /\ returns drain_imu_raw Bench.draining (fun _ s' =>
       imu_raw_data_buff_ s' = [Bench.imu 6; Bench.imu 7; Bench.imu 5]
       /\ ordered (map IMUData.time (imu_raw_data_buff_ s')) = false)
  /\ returns (Runs [Bench.first_tick; Bench.tick_with_one_triple]) Bench.constructed
       (fun _ s' =>
          filter is_filter_call (emitted s')
          = [Call_Update (Bench.imu 0) true;
             Call_Update (Bench.imu 1) true;
             Call_Update (Bench.imu 2) true;
             Call_Correct (Bench.imu 3) (Bench.cloud 3 1) true;
             Call_Update (Bench.imu 6) true;
             Call_Update (Bench.imu 7) true;
             Call_Update (Bench.imu 5) false]).
Proof.
  split; [reflexivity|]. split; vm_compute; [split|]; reflexivity.
Qed.

(** C3, where the code departs from it.  Two calls of Run on a newly
    constructed flow that receives every channel in timestamp order: first
    the transform, a triple at 0 s and a raw sample at 0 s, which initialize
    it; then raw samples at 1, 5, 9 and 10 s and triples at 3 and 8 s.  In
    the cycle that consumes the triple at 8 s the sample at 5 s is in the raw
    buffer, behind the sample at 10 s, and is older than the triple; Correct
    is called with the triple before that sample is propagated. *)
Theorem Run_corrects_before_older_sample :
  ordered (map IMUData.time
             (new_imu_raw Bench.first_tick ++ new_imu_raw Bench.tick_with_two_triples))
  = true
  /\ returns (Runs [Bench.first_tick; Bench.tick_with_two_triples]) Bench.constructed
       (fun _ s' =>
          filter is_filter_call (emitted s')
          = [Call_Update (Bench.imu 0) true;
             Call_Update (Bench.imu 1) true;
             Call_Correct (Bench.imu 3) (Bench.cloud 3 1) true;
             Call_Update (Bench.imu 9) true;
             Call_Correct (Bench.imu 8) (Bench.cloud 8 2) true;
             Call_Update (Bench.imu 5) false;
             Call_Update (Bench.imu 10) true]).
Proof.
  split; [reflexivity|]. vm_compute. reflexivity.
Qed.

(** The cycle in which that happens: the second cycle of the second call
    starts with the raw buffer 10, 5 s, which the first cycle left, and the
    triple at 8 s in front. *)
Lemma cycle_corrects_before_older_sample :
  returns cycle
    (Bench.flow [Bench.imu 10; Bench.imu 5] [Bench.cloud 8 2] [Bench.gnss 8]
       [Bench.imu 8] (Bench.running 9))
    (fun _ s' =>
       filter is_filter_call (emitted s')
       = [Call_Correct (Bench.imu 8) (Bench.cloud 8 2) true;
          Call_Update (Bench.imu 5) false]
       /\ imu_raw_data_buff_ s' = [Bench.imu 10]).
Proof.
  vm_compute. split; reflexivity.
Qed.

(** Witness of [cycle_propagates_older_first]: the cycle on [Bench.aligned],
    initialized, with an aligned triple at 3 s and the raw buffer in order. *)
Lemma cycle_propagates_older_first_bench :
  returns cycle Bench.aligned (fun _ s' =>
    exists later,
      emitted s'
      = emitted Bench.aligned
        ++ fst (propagate
                  (filter (older_than (Bench.cloud 3 1))
                     (imu_raw_data_buff_ Bench.aligned))
                  (filtering_ptr_ Bench.aligned))
        ++ Call_Correct (Bench.imu 3) (Bench.cloud 3 1)
             (fst (fst (Filtering.Correct (Bench.imu 3) (Bench.cloud 3 1)
                          (laser_pose_ Bench.aligned)
                          (snd (propagate
                                  (filter (older_than (Bench.cloud 3 1))
                                     (imu_raw_data_buff_ Bench.aligned))
                                  (filtering_ptr_ Bench.aligned))))))
           :: later).
Proof.
  exact (cycle_propagates_older_first Bench.aligned eq_refl eq_refl eq_refl eq_refl
           eq_refl eq_refl eq_refl).
Defined.

(** Witness of [drain_retains_at_the_back]: on [Bench.draining] the sample at
    5 s stops the drain. *)
Lemma drain_retains_at_the_back_bench :
  returns drain_imu_raw Bench.draining (fun _ s' =>
    imu_raw_data_buff_ s' = [Bench.imu 6; Bench.imu 7] ++ [Bench.imu 5]).
Proof.
  apply (@drain_retains_at_the_back Bench.payload Bench.stand_in Bench.draining
           [Bench.imu 1; Bench.imu 2] (Bench.imu 5) [Bench.imu 6; Bench.imu 7]).
  - reflexivity.
  - repeat constructor.
  - reflexivity.
Defined.

(** A rejected correction on the bench: the scan 0 makes the stand-in
    filter's Correct fail; the laser pose is sent, no fused output follows
    the correction, and the next raw sample is propagated and its fused
    output sent. *)
Lemma Run_goes_on_after_rejected_correction :
  returns (Run (Bench.calibrating 0))
    (Bench.flow [Bench.imu 1; Bench.imu 4] [Bench.cloud 3 0] [Bench.gnss 3]
       [Bench.imu 3] (Bench.running 0))
    (fun ok s' =>
       ok = true
       /\ emitted s'
          = [LookupData true;
             Call_Update (Bench.imu 1) true;
             SendTransform 0 1; Publish_fused_odom 0 0 1;
             Call_Correct (Bench.imu 3) (Bench.cloud 3 0) false;
             Publish_laser_odom 0 3; Publish_current_scan 0;
             Call_Update (Bench.imu 4) true;
             SendTransform 0 4; Publish_fused_odom 0 0 4]).
Proof.
  vm_compute. split; reflexivity.
Qed.

(** Witness of C9: with no transform to look up, Run on [Bench.two_triples]
    returns false and only records the lookup. *)
Lemma Run_waits_for_calibration :
  Run Bench.quiet Bench.two_triples
  = Some (false, set_emitted [LookupData false] Bench.two_triples).
Proof.
  exact (proj1 (InitCalibration_gates_Run Bench.quiet Bench.two_triples)
           eq_refl eq_refl).
Defined.

(** Witness of [uninitialized_cycle_keeps_raw_buffer]: the first cycle on
    [Bench.starting]. *)
Lemma uninitialized_cycle_keeps_raw_buffer_bench :
  returns cycle Bench.starting (fun _ s' =>
    imu_raw_data_buff_ s' = imu_raw_data_buff_ Bench.starting
    \/ exists s1, ValidLidarData Bench.starting = Some (true, s1)
                  /\ imu_raw_data_buff_ s1 = imu_raw_data_buff_ Bench.starting
                  /\ s' = initialized s1).
Proof.
  exact (@uninitialized_cycle_keeps_raw_buffer Bench.payload Bench.stand_in
           Bench.starting eq_refl eq_refl).
Defined.

(** Witness of [ValidLidarData_accepts_unordered]: the cloud of
    [Bench.unstamped_cloud] has no stamp, its companions are 100 s apart, and
    the three fronts are accepted as a triple. *)
Lemma ValidLidarData_accepts_unordered_bench :
  ValidLidarData Bench.unstamped_cloud
  = Some (true,
          set_imu_synced_data_buff_ []
            (set_gnss_data_buff_ []
               (set_cloud_data_buff_ []
                  (latched (Bench.cloud nan 1) (Bench.gnss 0) (Bench.imu 100)
                     Bench.unstamped_cloud)))).
Proof.
  apply (@ValidLidarData_accepts_unordered Bench.payload Bench.stand_in
           Bench.unstamped_cloud (Bench.cloud nan 1) [] (Bench.gnss 0) []
           (Bench.imu 100) []).
  - reflexivity.
  - reflexivity.
  - reflexivity.
  - right. reflexivity.
  - right. reflexivity.
Defined.

(** Witness of [drain_loses_unordered_sample]: on [Bench.draining_unstamped]
    the sample without a stamp stops the drain after the sample at 1 s; it
    is neither handed to Update nor put back, and the sample at 2 s is the
    new front. *)
Lemma drain_loses_unordered_sample_bench :
  returns drain_imu_raw Bench.draining_unstamped (fun _ s' =>
    imu_raw_data_buff_ s' = [Bench.imu 2]
    /\ current_imu_raw_data_ s' = Bench.imu nan
    /\ emitted s'
       = emitted Bench.draining_unstamped
         ++ fst (propagate [Bench.imu 1] (filtering_ptr_ Bench.draining_unstamped))).
Proof.
  apply (@drain_loses_unordered_sample Bench.payload Bench.stand_in
           Bench.draining_unstamped [Bench.imu 1] (Bench.imu nan) [Bench.imu 2]).
  - reflexivity.
  - repeat constructor.
  - reflexivity.
Defined.

(** Witness of [Run_updates_with_every_raw_sample]: on the ordered streams
    of [Bench.two_triples] the four raw samples are each handed to Update
    once. *)
Lemma Run_updates_with_every_raw_sample_bench :
  returns (Run Bench.quiet) (Bench.calibrated Bench.two_triples) (fun ok s' =>
    ok = true
    /\ imu_raw_data_buff_ s' = []
    /\ Permutation (updates (emitted s'))
         (updates (emitted (Bench.calibrated Bench.two_triples))
          ++ imu_raw_data_buff_ (Bench.calibrated Bench.two_triples)
          ++ new_imu_raw Bench.quiet)).
Proof.
  apply (@Run_updates_with_every_raw_sample Bench.payload Bench.stand_in stand_in_laws
           Bench.quiet (Bench.calibrated Bench.two_triples)).
  - reflexivity.
  - reflexivity.
  - repeat constructor.
  - repeat constructor.
Defined.

(** Witness of [Run_without_triple_updates_in_order]: the samples at 1 and
    2 s of [Bench.propagating] and the delivered sample at 3 s. *)
Lemma Run_without_triple_updates_in_order_bench :
  returns (Run Bench.raw_only) Bench.propagating (fun ok s' =>
    ok = true
    /\ imu_raw_data_buff_ s' = []
    /\ updates (emitted s')
       = updates (emitted Bench.propagating) ++ imu_raw_data_buff_ Bench.propagating
         ++ new_imu_raw Bench.raw_only
    /\ lidar_buffers s'
       = (cloud_data_buff_ Bench.propagating ++ new_cloud Bench.raw_only,
          gnss_data_buff_ Bench.propagating ++ new_gnss Bench.raw_only,
          imu_synced_data_buff_ Bench.propagating ++ new_imu_synced Bench.raw_only)).
Proof.
  apply (@Run_without_triple_updates_in_order Bench.payload Bench.stand_in stand_in_laws
           Bench.raw_only Bench.propagating).
  - reflexivity.
  - reflexivity.
  - left. reflexivity.
Defined.

(** Witness of [uninitialized_Run_without_triple_only_buffers]: on
    [Bench.waiting] the delivered sample joins the two buffered ones. *)
Lemma uninitialized_Run_without_triple_only_buffers_bench :
  returns (Run Bench.raw_only) Bench.waiting (fun ok s' =>
    ok = true
    /\ inited s' = false
    /\ read Bench.raw_only Bench.waiting s'
    /\ exists maps,
         emitted s' = emitted Bench.waiting ++ maps /\ map_events Bench.raw_only maps).
Proof.
  apply (@uninitialized_Run_without_triple_only_buffers Bench.payload Bench.stand_in
           stand_in_laws Bench.raw_only Bench.waiting).
  - reflexivity.
  - reflexivity.
  - left. reflexivity.
Defined.

(** Witness of [correction_output_stamped_by_stopping_sample]: on
    [Bench.aligned] the correction is for the cloud at 3 s, after the
    updates at 1 and 2 s, and its fused output is stamped 5 s. *)
Lemma correction_output_stamped_by_stopping_sample_bench :
  returns cycle Bench.aligned (fun _ s' =>
    exists later,
      emitted s'
      = [Call_Update (Bench.imu 1) true; SendTransform 0 1; Publish_fused_odom 0 0 1;
         Call_Update (Bench.imu 2) true; SendTransform 0 2; Publish_fused_odom 0 0 2]
        ++ [Call_Correct (Bench.imu 3) (Bench.cloud 3 1) true;
            Publish_laser_odom 1 3; Publish_current_scan 0;
            SendTransform 1 5; Publish_fused_odom 1 0 5]
        ++ later).
Proof.
  apply (@correction_output_stamped_by_stopping_sample Bench.payload Bench.stand_in
           Bench.aligned (Bench.cloud 3 1) [] (Bench.gnss 3) [] (Bench.imu 3) []
           [Bench.imu 1; Bench.imu 2] (Bench.imu 5) [Bench.imu 6; Bench.imu 7]).
  - reflexivity.
  - reflexivity.
  - reflexivity.
  - reflexivity.
  - reflexivity.
  - reflexivity.
  - reflexivity.
  - repeat constructor.
  - reflexivity.
  - reflexivity.
Defined.

(** The stand-in filter's rejected Correct returns the filter as it was. *)
Lemma stand_in_rejection : @Filtering.rejection Bench.payload Bench.stand_in.
Proof.
  constructor. intros i c p f. cbn.
  destruct (CloudData.cloud_ptr c); cbn; [reflexivity|discriminate].
Qed.

(* The next statement is a product under [returns]; no implicit arguments
   are to be computed from it. *)
Unset Implicit Arguments.

(** Witness of C8: on [Bench.rejecting] the drain propagates the sample at
    1 s, the correction at 3 s is rejected, and the sample at 4 s and every
    later run of samples are propagated from the filter as the drain left
    it. *)
Lemma CorrectLocalization_publishes_bench :
  returns cycle Bench.rejecting (fun _ s' =>
    forall xs,
      emitted (propagated xs s')
      = [Call_Update (Bench.imu 1) true; SendTransform 0 1; Publish_fused_odom 0 0 1]
        ++ [Call_Correct (Bench.imu 3) (Bench.cloud 3 0) false;
            Publish_laser_odom 0 3; Publish_current_scan 0]
        ++ fst (propagate (Bench.imu 4 :: xs) (Bench.running 1))).
Proof.
  generalize (proj2 (proj2 (@CorrectLocalization_publishes Bench.payload Bench.stand_in
                              (drained Bench.rejecting_accepted)))
                stand_in_rejection eq_refl Bench.rejecting Bench.rejecting_accepted
                eq_refl eq_refl eq_refl).
  vm_compute. exact (fun H => H).
Defined.

Set Implicit Arguments.

End OnTheBench.
